(** * Player.ts: the player-controlled actor

    A shallow embedding of [src/game-objects/Player.ts].  The class keeps its
    own fields and mutates three collaborators: its physics sprite
    ([gameObject]), the scene (registry, display list, timer, physics
    colliders) and the sprites it created through the scene.  Methods are
    state transformers on a [Player] record that carries the scene it was
    built on; [new Date().getTime()] is an explicit argument [now]. *)

From Stdlib Require Import QArith.
From stdpp Require Import gmap strings list.

Local Open Scope string_scope.
Local Open Scope Z_scope.
Local Open Scope list_scope.

(** ** Constants of the file *)

Definition HIT_DELAY : Z := 500.
Definition PLAYER_SPEED : Z := 100.
Definition PLAYER_SHOOTING_TIME : Z := 300.
Definition DISTANCE_BETWEEN_HEARTS : Z := 15.
Definition PLAYER_RELOAD : Z := 500.
Definition MAX_HP : Z := 3.

(** ** Data *)

(** ['up' | 'down' | 'left' | 'right'] *)
Module Orientation.
Inductive t := up | down | left | right.

Definition to_string (o : t) : string :=
  match o with
  | up => "up"
  | down => "down"
  | left => "left"
  | right => "right"
  end.

Definition eqb (a b : t) : bool :=
  match a, b with
  | up, up | down, down | left, left | right, right => true
  | _, _ => false
  end.
End Orientation.

(** The input snapshot handed to [update]: the six named boolean fields. *)
Module keyPressed.
Record t := mk
  { up : bool; down : bool; left : bool; right : bool;
    space : bool; shift : bool }.

(** [Object.values(keyPressed)] *)
Definition values (k : t) : list bool :=
  [up k; down k; left k; right k; space k; shift k].
End keyPressed.

(** What [registry.get] yields for the hit-point key: a JavaScript number,
    that is an IEEE 754 binary64 value; an absent key reads as [undefined],
    here [None].  A finite number is an integer or, with an odd numerator, a
    proper fraction of a power of two: [Frac m e] is [(2 * m + 1) / 2 ^ e].
    The sign of zero is not kept: [!], [+], the comparisons and [Array()]
    treat [-0] as [0]. *)
Inductive jsnum :=
| Num (z : Z)
| Frac (m : Z) (e : positive)
| Infinity (negative : bool)
| NaN.

(** The finite number [n / 2 ^ e]. *)
Fixpoint dyadic (n : Z) (e : nat) : jsnum :=
  match e with
  | O => Num n
  | S e' =>
      if Z.even n then dyadic (n / 2) e'
      else Frac ((n - 1) / 2) (Pos.of_succ_nat e')
  end.

(** The integer nearest to [n / 2 ^ k], the even one of two equally near. *)
Definition round_half_even (n k : Z) : Z :=
  let q := n / 2 ^ k in
  let r := n mod 2 ^ k in
  let half := 2 ^ (k - 1) in
  if r <? half then q
  else if half <? r then q + 1
  else if Z.even q then q else q + 1.

(** The binary64 value of the exact result [n / 2 ^ e]: round to nearest,
    ties to even, on 53 significant bits and no bit below [2 ^ -1074]; a
    result of magnitude [2 ^ 1024] or more is an infinity. *)
Definition round_double (n : Z) (e : nat) : jsnum :=
  let bits := if n =? 0 then 0 else Z.log2 (Z.abs n) + 1 in
  let drop := Z.max (bits - 53) (Z.of_nat e - 1074) in
  if drop <=? 0 then dyadic n e
  else
    let q := round_half_even n drop in
    if 2 ^ 1024 <=? Z.abs q * 2 ^ (drop - Z.of_nat e) then Infinity (n <? 0)
    else if Z.of_nat e <=? drop then Num (q * 2 ^ (drop - Z.of_nat e))
    else dyadic q (e - Z.to_nat drop).

(** [!v] *)
Definition falsy (v : option jsnum) : bool :=
  match v with
  | Some (Num z) => z =? 0
  | Some (Frac _ _) | Some (Infinity _) => false
  | Some NaN | None => true
  end.

(** [v + k] for an integer [k]: the exact sum, rounded. *)
Definition js_add (v : option jsnum) (k : Z) : jsnum :=
  match v with
  | Some (Num z) => round_double (z + k) 0
  | Some (Frac m e) =>
      round_double (2 * m + 1 + k * 2 ^ Z.pos e) (Pos.to_nat e)
  | Some (Infinity s) => Infinity s
  | Some NaN | None => NaN
  end.

(** [i >= v]: comparisons against [undefined] or [NaN] are false. *)
Definition js_ge (i : Z) (v : option jsnum) : bool :=
  match v with
  | Some (Num z) => z <=? i
  | Some (Frac m e) => 2 * m + 1 <=? i * 2 ^ Z.pos e
  | Some (Infinity s) => s
  | Some NaN | None => false
  end.

(** [v > i] *)
Definition js_gt (v : option jsnum) (i : Z) : bool :=
  match v with
  | Some (Num z) => i <? z
  | Some (Frac m e) => i * 2 ^ Z.pos e <? 2 * m + 1
  | Some (Infinity s) => negb s
  | Some NaN | None => false
  end.

(** A sprite made by [scene.add.sprite]; coordinates are whole pixels. *)
Record Sprite := mkSprite
  { spriteX : Z; spriteY : Z; texture : string;
    scrollFactor : Z; depth : Z; scale : Q; alpha : Z }.

(** [scene.add.sprite(x, y, texture)] starts from Phaser's defaults. *)
Definition sprite (x y : Z) (tex : string) : Sprite :=
  mkSprite x y tex 1 0 (Qmake 1 1) 1.

Definition setScrollFactor (v : Z) (s : Sprite) : Sprite :=
  mkSprite (spriteX s) (spriteY s) (texture s) v (depth s) (scale s) (alpha s).
Definition setDepth (v : Z) (s : Sprite) : Sprite :=
  mkSprite (spriteX s) (spriteY s) (texture s) (scrollFactor s) v (scale s) (alpha s).
Definition setScale (v : Q) (s : Sprite) : Sprite :=
  mkSprite (spriteX s) (spriteY s) (texture s) (scrollFactor s) (depth s) v (alpha s).
Definition setAlpha (v : Z) (s : Sprite) : Sprite :=
  mkSprite (spriteX s) (spriteY s) (texture s) (scrollFactor s) (depth s) (scale s) v.

(** The actor's physics sprite, [Phaser.Physics.Arcade.Sprite]. *)
Record GameObject := mkGameObject
  { active : bool;
    goX : Z; goY : Z;
    goTexture : string; goFrame : Z;
    velocityX : Z; velocityY : Z;
    flipX : bool;
    currentAnim : option string;
    collideWorldBounds : bool;
    origin : Q * Q;
    bodySize : Z * Z;
    goDepth : Z;
    hasBody : bool }.

Definition setVelocityX (v : Z) (g : GameObject) : GameObject :=
  mkGameObject (active g) (goX g) (goY g) (goTexture g) (goFrame g)
    v (velocityY g) (flipX g) (currentAnim g)
    (collideWorldBounds g) (origin g) (bodySize g) (goDepth g) (hasBody g).
Definition setVelocityY (v : Z) (g : GameObject) : GameObject :=
  mkGameObject (active g) (goX g) (goY g) (goTexture g) (goFrame g)
    (velocityX g) v (flipX g) (currentAnim g)
    (collideWorldBounds g) (origin g) (bodySize g) (goDepth g) (hasBody g).
(** [setVelocity(v)]: the second argument defaults to the first. *)
Definition setVelocity (v : Z) (g : GameObject) : GameObject :=
  setVelocityY v (setVelocityX v g).
Definition setFlipX (b : bool) (g : GameObject) : GameObject :=
  mkGameObject (active g) (goX g) (goY g) (goTexture g) (goFrame g)
    (velocityX g) (velocityY g) b (currentAnim g)
    (collideWorldBounds g) (origin g) (bodySize g) (goDepth g) (hasBody g).
(** [play(key, true)] *)
Definition play (key : string) (g : GameObject) : GameObject :=
  mkGameObject (active g) (goX g) (goY g) (goTexture g) (goFrame g)
    (velocityX g) (velocityY g) (flipX g) (Some key)
    (collideWorldBounds g) (origin g) (bodySize g) (goDepth g) (hasBody g).
(** [destroy()] takes the object out of the scene: it is no longer active,
    its physics body is removed, so that no velocity is left, and its
    animation state is dropped; position, texture and mirroring stay
    readable. *)
Definition destroy (g : GameObject) : GameObject :=
  mkGameObject false (goX g) (goY g) (goTexture g) (goFrame g)
    0 0 (flipX g) None
    (collideWorldBounds g) (origin g) (bodySize g) (goDepth g) false.

(** The two methods handed to [scene.time.addEvent] as callbacks. *)
Inductive Callback := cb_readyToFire | cb_endShoot.

Record TimerEvent := mkTimerEvent { delay : Z; callback : Callback }.

(** Modelled from the spec: the projectile collaborator of [Arrow.ts],
    "constructed from (scene, firing actor, orientation)"; the record keeps
    the orientation and the position of the firing actor. *)
Record Arrow := mkArrow
  { arrowOrientation : Orientation.t; arrowFromX : Z; arrowFromY : Z }.

(** Modelled from the spec: a hostile entity of [scene.treants]; only its
    identity matters here. *)
Record Treant := mkTreant { treantId : nat }.

(** What [scene.physics.add.sprite(x, y, texture, frame)] was called with. *)
Record PhysicsSprite := mkPhysicsSprite
  { psX : Z; psY : Z; psTexture : string; psFrame : Z }.

(** [scene.physics.add.collider(arrowGameObject, treant.gameObject,
    treant.treantLoseHp(arrowGameObject))]: arrows are named by their index
    in the scene's list of created arrows. *)
Record Collider := mkCollider
  { colliderArrow : nat; colliderTreant : Treant;
    treantLoseHp : Treant * nat }.

(** Modelled from the spec: the scene host of [AbstractScene.ts], as the
    services the class calls on it: the shared key/value registry, the
    factory of sprites, the one-shot timer, the created arrows, the known
    treants and the collision pairings.  [sprites] is the display list filled
    by [scene.add.sprite]; a sprite is named by its index in it.
    [physicsSprites] lists, apart from them, the arcade sprites made by
    [scene.physics.add.sprite], each as the call that made it. *)
Record Scene := mkScene
  { registry : gmap string jsnum;
    sprites : list Sprite;
    timeEvents : list TimerEvent;
    arrows : list Arrow;
    treants : list Treant;
    colliders : list Collider;
    physicsSprites : list PhysicsSprite }.

Record Player := mkPlayer
  { scene : Scene;
    gameObject : GameObject;
    orientation : Orientation.t;
    lastTimeHit : Z;
    isLoading : bool;
    isShooting : bool;
    tomb : option nat;
    hearts : list nat }.

(** Field updates. *)
Definition set_registry (r : gmap string jsnum) (sc : Scene) : Scene :=
  mkScene r (sprites sc) (timeEvents sc) (arrows sc) (treants sc) (colliders sc)
    (physicsSprites sc).
Definition set_sprites (l : list Sprite) (sc : Scene) : Scene :=
  mkScene (registry sc) l (timeEvents sc) (arrows sc) (treants sc) (colliders sc)
    (physicsSprites sc).
Definition set_timeEvents (l : list TimerEvent) (sc : Scene) : Scene :=
  mkScene (registry sc) (sprites sc) l (arrows sc) (treants sc) (colliders sc)
    (physicsSprites sc).
Definition set_arrows (l : list Arrow) (sc : Scene) : Scene :=
  mkScene (registry sc) (sprites sc) (timeEvents sc) l (treants sc) (colliders sc)
    (physicsSprites sc).
Definition set_colliders (l : list Collider) (sc : Scene) : Scene :=
  mkScene (registry sc) (sprites sc) (timeEvents sc) (arrows sc) (treants sc) l
    (physicsSprites sc).
Definition set_physicsSprites (l : list PhysicsSprite) (sc : Scene) : Scene :=
  mkScene (registry sc) (sprites sc) (timeEvents sc) (arrows sc) (treants sc)
    (colliders sc) l.

Definition with_scene (sc : Scene) (p : Player) : Player :=
  mkPlayer sc (gameObject p) (orientation p) (lastTimeHit p)
    (isLoading p) (isShooting p) (tomb p) (hearts p).
Definition with_gameObject (g : GameObject) (p : Player) : Player :=
  mkPlayer (scene p) g (orientation p) (lastTimeHit p)
    (isLoading p) (isShooting p) (tomb p) (hearts p).
Definition with_orientation (o : Orientation.t) (p : Player) : Player :=
  mkPlayer (scene p) (gameObject p) o (lastTimeHit p)
    (isLoading p) (isShooting p) (tomb p) (hearts p).
Definition with_lastTimeHit (t : Z) (p : Player) : Player :=
  mkPlayer (scene p) (gameObject p) (orientation p) t
    (isLoading p) (isShooting p) (tomb p) (hearts p).
Definition with_isLoading (b : bool) (p : Player) : Player :=
  mkPlayer (scene p) (gameObject p) (orientation p) (lastTimeHit p)
    b (isShooting p) (tomb p) (hearts p).
Definition with_isShooting (b : bool) (p : Player) : Player :=
  mkPlayer (scene p) (gameObject p) (orientation p) (lastTimeHit p)
    (isLoading p) b (tomb p) (hearts p).
Definition with_tomb (t : option nat) (p : Player) : Player :=
  mkPlayer (scene p) (gameObject p) (orientation p) (lastTimeHit p)
    (isLoading p) (isShooting p) t (hearts p).
Definition with_hearts (l : list nat) (p : Player) : Player :=
  mkPlayer (scene p) (gameObject p) (orientation p) (lastTimeHit p)
    (isLoading p) (isShooting p) (tomb p) l.

(** ** Scene services *)

(** [scene.add.sprite(...)]: the new sprite goes to the end of the display
    list and is returned, here as its index. *)
Definition add_sprite (s : Sprite) (sc : Scene) : nat * Scene :=
  (length (sprites sc), set_sprites (sprites sc ++ [s]) sc).

(** [scene.physics.add.sprite(x, y, texture, frame)]: the scene gets the
    arcade sprite. *)
Definition physics_add_sprite (s : PhysicsSprite) (sc : Scene) : Scene :=
  set_physicsSprites (physicsSprites sc ++ [s]) sc.

(** [scene.time.addEvent({delay, callback, callbackScope: this})] *)
Definition time_addEvent (e : TimerEvent) (sc : Scene) : Scene :=
  set_timeEvents (timeEvents sc ++ [e]) sc.

(** [new Arrow(scene, player, orientation)] *)
Definition new_Arrow (a : Arrow) (sc : Scene) : nat * Scene :=
  (length (arrows sc), set_arrows (arrows sc ++ [a]) sc).

(** [scene.physics.add.collider(...)] *)
Definition physics_add_collider (c : Collider) (sc : Scene) : Scene :=
  set_colliders (colliders sc ++ [c]) sc.

(** A constructor either returns the object or throws; [Array(n)] throws a
    [RangeError] on an invalid length, and the scene keeps what had been done
    to it by then. *)
Inductive result (A : Type) := Ok (a : A) | RangeError (sc : Scene).
Arguments Ok {A} a.
Arguments RangeError {A} sc.

(** [Array(v)], as the list of its indices: a valid array length is an
    integer in [0, 2^32 - 1]; [Array(undefined)] is the one-element array
    [[undefined]]; any other number, a fraction, an infinity or NaN,
    throws. *)
Definition js_Array (v : option jsnum) : option (list nat) :=
  match v with
  | None => Some [0%nat]
  | Some (Num n) =>
      if (0 <=? n) && (n <? 2 ^ 32) then Some (seq 0 (Z.to_nat n)) else None
  | Some (Frac _ _) | Some (Infinity _) | Some NaN => None
  end.

(** [ixs.map(i => scene.add.sprite(...))]: the sprites are created in index
    order; the result is the array of the new sprites. *)
Fixpoint map_add_sprite (mk : nat -> Sprite) (ixs : list nat) (sc : Scene)
  : list nat * Scene :=
  match ixs with
  | [] => ([], sc)
  | i :: rest =>
      let '(r, sc1) := add_sprite (mk i) sc in
      let '(rs, sc2) := map_add_sprite mk rest sc1 in
      (r :: rs, sc2)
  end.

(** The indicator at index [i]:
    [sprite((i + 1) * D, D, tex).setScrollFactor(0).setDepth(d)] *)
Definition heart_sprite (tex : string) (d : Z) (i : nat) : Sprite :=
  setDepth d
    (setScrollFactor 0
       (sprite ((Z.of_nat i + 1) * DISTANCE_BETWEEN_HEARTS)
          DISTANCE_BETWEEN_HEARTS tex)).

(** [heart.setAlpha(0)] on the sprite named [heart] *)
Definition hide (heart : nat) (l : list Sprite) : list Sprite :=
  alter (setAlpha 0) heart l.

(** The body of [updateHearts]'s callback over [hearts], from index [index]
    on; the hit points are read again at every index. *)
Fixpoint updateHearts_from (hp : option jsnum) (index : nat)
    (hs : list nat) (l : list Sprite) : list Sprite :=
  match hs with
  | [] => l
  | heart :: rest =>
      updateHearts_from hp (S index) rest
        (if js_ge (Z.of_nat index) hp then hide heart l else l)
  end.

(** The lookup tables of [punch], [beIdle] and [shoot]. *)
Record AnimEntry := mkAnimEntry { flip : bool; anim : string }.

Definition punch_animSwitch (o : Orientation.t) : AnimEntry :=
  match o with
  | Orientation.down => mkAnimEntry false "player-attack-down"
  | Orientation.up => mkAnimEntry false "player-attack-up"
  | Orientation.left => mkAnimEntry true "player-attack-side"
  | Orientation.right => mkAnimEntry false "player-attack-side"
  end.

Definition idle_animSwitch (o : Orientation.t) : AnimEntry :=
  match o with
  | Orientation.down => mkAnimEntry false "player-idle-down"
  | Orientation.up => mkAnimEntry false "player-idle-up"
  | Orientation.left => mkAnimEntry true "player-idle-side"
  | Orientation.right => mkAnimEntry false "player-idle-side"
  end.

Definition shoot_animSwitch (o : Orientation.t) : string :=
  match o with
  | Orientation.down => "player-attack-weapon-down"
  | Orientation.up => "player-attack-weapon-up"
  | Orientation.left => "player-attack-weapon-side"
  | Orientation.right => "player-attack-weapon-side"
  end.

(** ** The class *)

Section PlayerClass.

(** [REGISTRY_KEYS.PLAYER.HP], a string constant of [constants/registry]. *)
Variable PLAYER_HP : string.

Definition registry_get (sc : Scene) : option jsnum :=
  registry sc !! PLAYER_HP.

Definition registry_set (v : jsnum) (sc : Scene) : Scene :=
  set_registry (<[PLAYER_HP := v]> (registry sc)) sc.

Definition getHp (p : Player) : option jsnum :=
  registry_get (scene p).

Definition setHp (newHp : jsnum) (p : Player) : Player :=
  with_scene (registry_set newHp (scene p)) p.

Definition addHp (hpToAdd : Z) (p : Player) : Player :=
  let hp := registry_get (scene p) in
  setHp (js_add hp hpToAdd) p.

Definition initHearts (p : Player) : result Player :=
  let '(_, sc1) :=
    map_add_sprite (heart_sprite "heart-empty" 50)
      (seq 0 (Z.to_nat MAX_HP)) (scene p) in
  match js_Array (registry_get sc1) with
  | None => RangeError sc1
  | Some ixs =>
      let '(hs, sc2) := map_add_sprite (heart_sprite "heart" 100) ixs sc1 in
      Ok (with_hearts hs (with_scene sc2 p))
  end.

(** The sprite returned by [scene.physics.add.sprite(x, y,
    'player-idle-down', 0)], after the constructor's four settings. *)
Definition new_gameObject (x y : Z) : GameObject :=
  mkGameObject true x y "player-idle-down" 0 0 0 false None
    true (Qmake 5 10, Qmake 7 10) (10, 10) 10 true.

(** [new Player(scene, x, y)] at time [now] *)
Definition new_Player (sc : Scene) (x y now : Z) : result Player :=
  let registryHp := registry_get sc in
  let sc1 := if falsy registryHp then registry_set (Num MAX_HP) sc else sc in
  let sc2 :=
    physics_add_sprite (mkPhysicsSprite x y "player-idle-down" 0) sc1 in
  initHearts
    (mkPlayer sc2 (new_gameObject x y) Orientation.down now
       false false None []).

Definition canGetHit (now : Z) (p : Player) : bool :=
  Z.gtb (now - lastTimeHit p) HIT_DELAY.

Definition updateHearts (p : Player) : Player :=
  with_scene
    (set_sprites
       (updateHearts_from (getHp p) 0 (hearts p) (sprites (scene p)))
       (scene p))
    p.

Definition tomb_sprite (g : GameObject) : Sprite :=
  setScale (Qmake 1 10) (sprite (goX g) (goY g) "tomb").

Definition loseHp (now : Z) (p : Player) : Player :=
  let p1 := addHp (-1) p in
  let p2 := updateHearts p1 in
  let p3 := with_lastTimeHit now p2 in
  if js_gt (getHp p3) 0 then p3
  else
    let p4 :=
      match tomb p3 with
      | None =>
          let '(t, sc) := add_sprite (tomb_sprite (gameObject p3)) (scene p3) in
          with_tomb (Some t) (with_scene sc p3)
      | Some _ => p3
      end in
    with_gameObject (destroy (gameObject p4)) p4.

Definition reload (p : Player) : Player :=
  let p1 := with_isLoading true p in
  with_scene
    (time_addEvent (mkTimerEvent PLAYER_RELOAD cb_readyToFire) (scene p1)) p1.

Definition readyToFire (p : Player) : Player := with_isLoading false p.

Definition go (direction : Orientation.t) (shouldAnimate : bool) (p : Player)
  : Player :=
  let g := gameObject p in
  let p1 :=
    match direction with
    | Orientation.left => with_gameObject (setVelocityX (- PLAYER_SPEED) g) p
    | Orientation.right => with_gameObject (setVelocityX PLAYER_SPEED g) p
    | Orientation.up => with_gameObject (setVelocityY (- PLAYER_SPEED) g) p
    | Orientation.down => with_gameObject (setVelocityY PLAYER_SPEED g) p
    end in
  if negb shouldAnimate then p1
  else
    let p2 :=
      with_gameObject
        (setFlipX (Orientation.eqb direction Orientation.left) (gameObject p1))
        p1 in
    let p3 := with_orientation direction p2 in
    with_gameObject
      (play (String.append "player-move-" (Orientation.to_string direction))
         (gameObject p3))
      p3.

Definition handleHorizontalMovement (k : keyPressed.t) (p : Player) : Player :=
  let isUpDownPressed := keyPressed.up k || keyPressed.down k in
  if keyPressed.left k then go Orientation.left (negb isUpDownPressed) p
  else if keyPressed.right k then go Orientation.right (negb isUpDownPressed) p
  else p.

Definition handleVerticalMovement (k : keyPressed.t) (p : Player) : Player :=
  if keyPressed.up k then go Orientation.up true p
  else if keyPressed.down k then go Orientation.down true p
  else p.

Definition handleMovement (k : keyPressed.t) (p : Player) : Player :=
  if isShooting p then p
  else handleVerticalMovement k (handleHorizontalMovement k p).

Definition punch (p : Player) : Player :=
  let e := punch_animSwitch (orientation p) in
  let p1 := with_gameObject (setFlipX (flip e) (gameObject p)) p in
  with_gameObject (play (anim e) (gameObject p1)) p1.

Definition beIdle (p : Player) : Player :=
  let e := idle_animSwitch (orientation p) in
  let p1 := with_gameObject (setFlipX (flip e) (gameObject p)) p in
  with_gameObject (play (anim e) (gameObject p1)) p1.

Definition endShoot (p : Player) : Player := with_isShooting false p.

(** [shoot] returns the arrow it made, here the arrow's index. *)
Definition shoot (p : Player) : nat * Player :=
  let p1 := with_isShooting true p in
  let p2 :=
    with_scene
      (time_addEvent (mkTimerEvent PLAYER_SHOOTING_TIME cb_endShoot) (scene p1))
      p1 in
  let p3 :=
    with_gameObject
      (play (shoot_animSwitch (orientation p2)) (gameObject p2)) p2 in
  let '(arrow, sc) :=
    new_Arrow
      (mkArrow (orientation p3) (goX (gameObject p3)) (goY (gameObject p3)))
      (scene p3) in
  (arrow, with_scene sc p3).

(** [scene.treants.map(treant => scene.physics.add.collider(...))] *)
Definition add_colliders (arrowGameObject : nat) (sc : Scene) : Scene :=
  fold_left
    (fun acc treant =>
       physics_add_collider
         (mkCollider arrowGameObject treant (treant, arrowGameObject)) acc)
    (treants sc) sc.

Definition handleShootKey (k : keyPressed.t) (p : Player) : Player :=
  if keyPressed.shift k then
    if isLoading p then p
    else
      let p1 := reload p in
      let '(arrow, p2) := shoot p1 in
      let arrowGameObject := arrow in
      with_scene (add_colliders arrowGameObject (scene p2)) p2
  else p.

(** [Object.values(keyPressed).filter(x => x).length === 0] *)
Definition noKeyPressed (k : keyPressed.t) : bool :=
  Nat.eqb (length (List.filter (fun x => x) (keyPressed.values k))) 0.

Definition update (k : keyPressed.t) (p : Player) : Player :=
  if negb (active (gameObject p)) then p
  else
    let p1 := with_gameObject (setVelocity 0 (gameObject p)) p in
    let p2 := handleMovement k p1 in
    let p3 := if keyPressed.space k then punch p2 else p2 in
    let p4 :=
      if noKeyPressed k && negb (isLoading p3) then beIdle p3 else p3 in
    handleShootKey k p4.

(** The part of [update] that runs before [handleShootKey]. *)
Definition before_shoot (k : keyPressed.t) (p : Player) : Player :=
  let p1 := with_gameObject (setVelocity 0 (gameObject p)) p in
  let p2 := handleMovement k p1 in
  let p3 := if keyPressed.space k then punch p2 else p2 in
  if noKeyPressed k && negb (isLoading p3) then beIdle p3 else p3.

(** What movement, melee and the idle fallback leave untouched: everything
    but velocity, mirroring, current animation and orientation. *)
Definition same_but_motion (p q : Player) : Prop :=
  scene q = scene p /\
  isLoading q = isLoading p /\
  isShooting q = isShooting p /\
  tomb q = tomb p /\
  hearts q = hearts p /\
  lastTimeHit q = lastTimeHit p /\
  goX (gameObject q) = goX (gameObject p) /\
  goY (gameObject q) = goY (gameObject p) /\
  active (gameObject q) = active (gameObject p).

(** A display list [l'] extends [l] and differs on [l]'s sprites at most
    by some of them having been hidden. *)
Definition only_hides (l l' : list Sprite) : Prop :=
  forall r s, l !! r = Some s ->
    exists s', l' !! r = Some s' /\ (s' = s \/ s' = setAlpha 0 s).

(** The scheduler running a timer callback on the player. *)
Definition fire (cb : Callback) (p : Player) : Player :=
  match cb with
  | cb_readyToFire => readyToFire p
  | cb_endShoot => endShoot p
  end.

(** ** Operations on a player, for statements over every operation *)

Inductive Op :=
| op_update (k : keyPressed.t)
| op_loseHp (now : Z)
| op_fire (cb : Callback).

Definition run (o : Op) (p : Player) : Player :=
  match o with
  | op_update k => update k p
  | op_loseHp now => loseHp now p
  | op_fire cb => fire cb p
  end.

(** The scene a constructor call leaves behind, returned or thrown. *)
Definition result_scene (r : result Player) : Scene :=
  match r with
  | Ok p => scene p
  | RangeError sc => sc
  end.

(** States reachable from a scene whose registry has no hit-point entry, by
    construction (also of a new actor on the scene of the previous one),
    [update], [loseHp] and timer callbacks.  With [guarded], [loseHp] is
    only applied to an actor whose game object is still active. *)
Inductive reachable (guarded : bool) : Player -> Prop :=
| reach_new sc x y now p :
    registry sc !! PLAYER_HP = None ->
    new_Player sc x y now = Ok p ->
    reachable guarded p
| reach_respawn q x y now p :
    reachable guarded q ->
    new_Player (scene q) x y now = Ok p ->
    reachable guarded p
| reach_update q k :
    reachable guarded q -> reachable guarded (update k q)
| reach_fire q cb :
    reachable guarded q -> reachable guarded (fire cb q)
| reach_loseHp q now :
    reachable guarded q ->
    (guarded = true -> active (gameObject q) = true) ->
    reachable guarded (loseHp now q).

(** [loseHp] called once per element of [nows], in order. *)
Definition loseHp_each (nows : list Z) (p : Player) : Player :=
  fold_left (fun q now => loseHp now q) nows p.

(** ** Sample states *)

(** A fresh scene with two treants. *)
Definition ex_scene : Scene :=
  mkScene ∅ [] [] [] [mkTreant 7; mkTreant 9] [] [].

(** The actor [new Player(ex_scene, 40, 60)] built at time 1000. *)
Definition ex_player : Player :=
  mkPlayer
    (mkScene (<[PLAYER_HP := Num 3]> ∅)
       (map (heart_sprite "heart-empty" 50) [0; 1; 2]%nat
          ++ map (heart_sprite "heart" 100) [0; 1; 2]%nat)
       [] [] [mkTreant 7; mkTreant 9] []
       [mkPhysicsSprite 40 60 "player-idle-down" 0])
    (new_gameObject 40 60) Orientation.down 1000 false false None
    [3; 4; 5]%nat.

(** The same actor after two hits, and after the third, which kills it. *)
Definition ex_hurt : Player := loseHp 2200 (loseHp 1600 ex_player).
Definition ex_dead : Player := loseHp 2800 ex_hurt.

(** Snapshots: nothing held, only the ranged key, left and up together. *)
Definition ex_no_key : keyPressed.t :=
  keyPressed.mk false false false false false false.
Definition ex_shift : keyPressed.t :=
  keyPressed.mk false false false false false true.
Definition ex_left_up : keyPressed.t :=
  keyPressed.mk true false true false false false.

(** Only left held, and the sample actor after one frame of it: walking
    left, mirrored. *)
Definition ex_left : keyPressed.t :=
  keyPressed.mk false false true false false false.
Definition ex_walking_left : Player := update ex_left ex_player.

(** ** Numbers *)

(** Integers of magnitude up to [2 ^ 53] are binary64 values: rounding
    leaves them as they are. *)
Lemma round_double_exact n :
  - 2 ^ 53 <= n <= 2 ^ 53 -> round_double n 0 = Num n.
Proof.
  intros Hn. destruct (Z.eq_dec (Z.abs n) (2 ^ 53)) as [Heq | Hne].
  - assert (n = 2 ^ 53 \/ n = - 2 ^ 53) as [-> | ->] by lia;
      vm_compute; reflexivity.
  - unfold round_double.
    destruct (Z.eqb_spec n 0) as [-> | Hn0]; [reflexivity |].
    assert (Hlog : Z.log2 (Z.abs n) < 53).
    { apply Z.log2_lt_pow2; lia. }
    change (Z.of_nat 0 - 1074) with (-1074).
    destruct (Z.leb_spec (Z.max (Z.log2 (Z.abs n) + 1 - 53) (-1074)) 0);
      [reflexivity | lia].
Qed.

(** One below the smallest such integer is not one: it rounds back. *)
Lemma round_double_floor : round_double (- 2 ^ 53 - 1) 0 = Num (- 2 ^ 53).
Proof. vm_compute. reflexivity. Qed.

(** The number one hit leaves of the integer [h]. *)
Lemma js_add_minus_one h :
  - 2 ^ 53 <= h <= 2 ^ 53 ->
  js_add (Some (Num h)) (-1)
  = Num (if h =? - 2 ^ 53 then h else h - 1).
Proof.
  intros Hh. cbn [js_add]. destruct (Z.eqb_spec h (- 2 ^ 53)) as [-> | Hne].
  - apply round_double_floor.
  - apply round_double_exact. lia.
Qed.

(** ** Basic facts *)

Lemma noKeyPressed_all_false k :
  noKeyPressed k = true ->
  k = keyPressed.mk false false false false false false.
Proof.
  destruct k as [[] [] [] [] [] []]; cbn; intros H;
    first [ reflexivity | discriminate H ].
Qed.

Lemma same_but_motion_refl p : same_but_motion p p.
Proof. repeat split. Qed.

Lemma same_but_motion_trans p q r :
  same_but_motion p q -> same_but_motion q r -> same_but_motion p r.
Proof. unfold same_but_motion. intros H1 H2. intuition congruence. Qed.

Lemma go_same d b p : same_but_motion p (go d b p).
Proof. destruct d, b; repeat split. Qed.

Lemma handleMovement_same k p : same_but_motion p (handleMovement k p).
Proof.
  unfold handleMovement, handleVerticalMovement, handleHorizontalMovement.
  repeat case_match;
    eauto using same_but_motion_refl, same_but_motion_trans, go_same.
Qed.

Lemma punch_same p : same_but_motion p (punch p).
Proof. repeat split. Qed.

Lemma beIdle_same p : same_but_motion p (beIdle p).
Proof. repeat split. Qed.

Lemma before_shoot_same k p : same_but_motion p (before_shoot k p).
Proof.
  unfold before_shoot.
  set (p1 := with_gameObject (setVelocity 0 (gameObject p)) p).
  set (p2 := handleMovement k p1).
  set (p3 := if keyPressed.space k then punch p2 else p2).
  cbn zeta.
  assert (H1 : same_but_motion p p1) by repeat split.
  assert (H2 : same_but_motion p1 p2) by apply handleMovement_same.
  assert (H3 : same_but_motion p2 p3).
  { subst p3. destruct (keyPressed.space k);
      [apply punch_same | apply same_but_motion_refl]. }
  assert (H4 : same_but_motion p p3)
    by eauto using same_but_motion_trans.
  destruct (noKeyPressed k && negb (isLoading p3)); [| exact H4].
  eapply same_but_motion_trans; [exact H4 | apply beIdle_same].
Qed.

Lemma update_active k p :
  active (gameObject p) = true ->
  update k p = handleShootKey k (before_shoot k p).
Proof. intros H. unfold update, before_shoot. rewrite H. reflexivity. Qed.

Lemma scene_before_shoot k p : scene (before_shoot k p) = scene p.
Proof. apply before_shoot_same. Qed.

Lemma isLoading_before_shoot k p :
  isLoading (before_shoot k p) = isLoading p.
Proof. apply before_shoot_same. Qed.

Lemma update_inactive k p :
  active (gameObject p) = false -> update k p = p.
Proof. intros H. unfold update. rewrite H. reflexivity. Qed.

(** ** The frame update *)

(** C10: when the actor's game object is no longer active, [update] leaves
    the whole player (velocity, orientation, locks, animation, the scene
    with its hit points, arrows, timers and colliders) exactly as it was,
    whatever the input snapshot. *)
Theorem update_inactive_noop k p :
  active (gameObject p) = false ->
  update k p = p.
Proof. apply update_inactive. Qed.

(** C9: [canGetHit] is true exactly when the time elapsed since
    [lastTimeHit] is strictly more than 500; after a damage application at
    time [t0] that is the time elapsed since [t0]. *)
Theorem canGetHit_iff now t0 p :
  (canGetHit now p = true <-> now - lastTimeHit p > 500) /\
  (canGetHit now (loseHp t0 p) = true <-> now - t0 > 500).
Proof.
  assert (Ht : lastTimeHit (loseHp t0 p) = t0).
  { unfold loseHp. cbn zeta. repeat case_match; reflexivity. }
  unfold canGetHit, HIT_DELAY. rewrite Ht.
  split; rewrite Z.gtb_gt; reflexivity.
Qed.

(** C8: on a live actor, a frame with no key held ends with zero velocity
    on both axes; if moreover no reload is in progress the idle animation
    of the current orientation is playing ('player-idle-down' facing down,
    'player-idle-up' facing up, 'player-idle-side' facing left or right),
    the orientation is unchanged and the sprite is mirrored exactly when
    that orientation is left. *)
Theorem update_no_key_idle k p :
  active (gameObject p) = true ->
  noKeyPressed k = true ->
  let p' := update k p in
  velocityX (gameObject p') = 0 /\
  velocityY (gameObject p') = 0 /\
  (isLoading p = false ->
   orientation p' = orientation p /\
   currentAnim (gameObject p')
     = Some (match orientation p with
             | Orientation.down => "player-idle-down"
             | Orientation.up => "player-idle-up"
             | Orientation.left | Orientation.right => "player-idle-side"
             end) /\
   (flipX (gameObject p') = true <-> orientation p = Orientation.left)).
Proof.
  intros Hact Hk p'. subst p'.
  apply noKeyPressed_all_false in Hk. subst k.
  destruct p as [sc g o t l s tb hs]. cbn in Hact.
  unfold update. cbn. rewrite Hact. cbn.
  unfold handleMovement, handleVerticalMovement, handleHorizontalMovement.
  destruct s, l; cbn;
    (split; [reflexivity | split; [reflexivity |]]);
    intros Hf; try discriminate Hf;
    (split; [reflexivity |]);
    destruct o; cbn; (split; [reflexivity |]); split; congruence.
Qed.

(** C2: with the ranged key held while the reload lock is active, the
    shoot step changes nothing: [handleShootKey] returns the player as it
    got it, so the whole frame equals the frame without its shoot step;
    no arrow, timer event or collider is added and the locks keep their
    values. *)
Theorem shoot_while_reloading_noop k p :
  keyPressed.shift k = true ->
  isLoading p = true ->
  handleShootKey k p = p /\
  (active (gameObject p) = true -> update k p = before_shoot k p) /\
  arrows (scene (update k p)) = arrows (scene p) /\
  timeEvents (scene (update k p)) = timeEvents (scene p) /\
  colliders (scene (update k p)) = colliders (scene p) /\
  isLoading (update k p) = true /\
  isShooting (update k p) = isShooting p.
Proof.
  intros Hs Hl.
  assert (Hh : forall q, isLoading q = true -> handleShootKey k q = q).
  { intros q Hq. unfold handleShootKey. rewrite Hs, Hq. reflexivity. }
  split; [apply Hh, Hl |].
  destruct (active (gameObject p)) eqn:Hact.
  - assert (Hu : update k p = before_shoot k p).
    { rewrite update_active by assumption.
      apply Hh. rewrite isLoading_before_shoot. assumption. }
    rewrite Hu, scene_before_shoot, isLoading_before_shoot.
    repeat split; try assumption; try reflexivity.
    apply before_shoot_same.
  - rewrite update_inactive by assumption.
    repeat split; try assumption; try reflexivity. discriminate.
Qed.

Lemma add_colliders_fold a ts acc :
  fold_left
    (fun acc treant =>
       physics_add_collider (mkCollider a treant (treant, a)) acc) ts acc
  = set_colliders
      (colliders acc ++ map (fun t => mkCollider a t (t, a)) ts) acc.
Proof.
  revert acc. induction ts as [|t ts IH]; intros acc; cbn.
  - rewrite app_nil_r. destruct acc; reflexivity.
  - rewrite IH. unfold physics_add_collider, set_colliders. cbn.
    rewrite <- app_assoc. reflexivity.
Qed.

Lemma add_colliders_eq a sc :
  add_colliders a sc
  = set_colliders
      (colliders sc ++ map (fun t => mkCollider a t (t, a)) (treants sc)) sc.
Proof. apply add_colliders_fold. Qed.

(** What a successful shoot step does, field by field. *)
Lemma handleShootKey_fires k q :
  keyPressed.shift k = true ->
  isLoading q = false ->
  let a := length (arrows (scene q)) in
  handleShootKey k q =
    mkPlayer
      (mkScene (registry (scene q)) (sprites (scene q))
         (timeEvents (scene q)
            ++ [mkTimerEvent PLAYER_RELOAD cb_readyToFire;
                mkTimerEvent PLAYER_SHOOTING_TIME cb_endShoot])
         (arrows (scene q)
            ++ [mkArrow (orientation q) (goX (gameObject q))
                  (goY (gameObject q))])
         (treants (scene q))
         (colliders (scene q)
            ++ map (fun t => mkCollider a t (t, a)) (treants (scene q)))
         (physicsSprites (scene q)))
      (play (shoot_animSwitch (orientation q)) (gameObject q))
      (orientation q) (lastTimeHit q) true true (tomb q) (hearts q).
Proof.
  intros Hs Hl a. unfold handleShootKey. rewrite Hs, Hl.
  unfold shoot, reload, new_Arrow. cbn -[add_colliders].
  rewrite add_colliders_eq. cbn.
  unfold with_scene, set_colliders, time_addEvent, set_timeEvents. cbn.
  rewrite <- app_assoc. reflexivity.
Qed.

(** C1 (amended): on a live actor, a frame with the ranged key held and the
    reload lock clear fires: both locks are set, their releases are
    scheduled after 500 and 300 time units (in that order, after whatever
    was scheduled before), the ranged-attack animation of the current
    facing is playing, exactly one arrow is added, built from that facing
    and the actor's position, and one collider per treant of the scene
    pairs that arrow with the treant. *)
Theorem shoot_on_live_actor k p :
  active (gameObject p) = true ->
  keyPressed.shift k = true ->
  isLoading p = false ->
  let p' := update k p in
  let a := length (arrows (scene p)) in
  isLoading p' = true /\
  isShooting p' = true /\
  timeEvents (scene p')
    = timeEvents (scene p)
        ++ [mkTimerEvent 500 cb_readyToFire; mkTimerEvent 300 cb_endShoot] /\
  currentAnim (gameObject p') = Some (shoot_animSwitch (orientation p')) /\
  arrows (scene p')
    = arrows (scene p)
        ++ [mkArrow (orientation p') (goX (gameObject p)) (goY (gameObject p))] /\
  colliders (scene p')
    = colliders (scene p)
        ++ map (fun t => mkCollider a t (t, a)) (treants (scene p)) /\
  treants (scene p') = treants (scene p) /\
  orientation p' = orientation (before_shoot k p).
Proof.
  intros Hact Hs Hl p' a. subst p' a.
  rewrite update_active by assumption.
  pose proof (before_shoot_same k p) as (Hsc & _ & _ & _ & _ & _ & Hx & Hy & _).
  rewrite handleShootKey_fires
    by (try assumption; rewrite isLoading_before_shoot; assumption).
  cbn. rewrite Hsc, Hx, Hy. repeat split; reflexivity.
Qed.

(** The shoot step never touches velocity, mirroring or orientation. *)
Lemma handleShootKey_motion k q :
  velocityX (gameObject (handleShootKey k q)) = velocityX (gameObject q) /\
  velocityY (gameObject (handleShootKey k q)) = velocityY (gameObject q) /\
  flipX (gameObject (handleShootKey k q)) = flipX (gameObject q) /\
  orientation (handleShootKey k q) = orientation q.
Proof.
  unfold handleShootKey.
  destruct (keyPressed.shift k) eqn:Hs; [| repeat split].
  destruct (isLoading q) eqn:Hl; [repeat split |].
  pose proof (handleShootKey_fires k q Hs Hl) as H. cbn zeta in H.
  unfold handleShootKey in H. rewrite Hs, Hl in H. rewrite H.
  repeat split.
Qed.

Lemma handleShootKey_anim_kept k q :
  keyPressed.shift k = false \/ isLoading q = true ->
  handleShootKey k q = q.
Proof.
  unfold handleShootKey. intros [H | H]; rewrite H; [reflexivity |].
  destruct (keyPressed.shift k); reflexivity.
Qed.

(** The vertical direction a snapshot asks for when one is held: up wins
    over down. *)
Lemma diagonal_before_shoot k p :
  isShooting p = false ->
  keyPressed.up k || keyPressed.down k = true ->
  keyPressed.left k || keyPressed.right k = true ->
  let v := if keyPressed.up k then Orientation.up else Orientation.down in
  let q := before_shoot k p in
  velocityX (gameObject q) = (if keyPressed.left k then -100 else 100) /\
  velocityY (gameObject q) = (if keyPressed.up k then -100 else 100) /\
  orientation q = v /\
  flipX (gameObject q) = false /\
  (keyPressed.space k = false ->
   currentAnim (gameObject q)
     = Some (String.append "player-move-" (Orientation.to_string v))).
Proof.
  destruct p as [sc g o t l s tb hs].
  destruct k as [ku kd kl kr ksp ksh].
  cbn [isShooting keyPressed.up keyPressed.down keyPressed.left
       keyPressed.right keyPressed.space].
  intros -> Hv Hh.
  unfold before_shoot, noKeyPressed, handleMovement, handleVerticalMovement,
    handleHorizontalMovement.
  destruct ku, kd; try discriminate Hv;
    destruct kl, kr; try discriminate Hh;
    destruct ksp; cbn; repeat split; intros; congruence.
Qed.

(** Runs the movement step on every snapshot that satisfies the two key
    hypotheses [Hv] and [Hh], for an actor that is not shooting. *)
Ltac movement_cases p k Hs Hv Hh :=
  destruct p as [? ? ? ? ? s ? ?]; cbn in Hs; subst s;
  unfold handleMovement, handleVerticalMovement, handleHorizontalMovement;
  destruct k as [[] [] [] [] ? ?];
  try discriminate Hv; try discriminate Hh; reflexivity.

(** C5 (amended): on a live actor whose movement is not locked, a frame
    with both a vertical and a horizontal key held ends with velocity on
    both axes (left wins over right, up over down), and the facing is the
    vertical one: the orientation is the vertical direction, the sprite is
    not mirrored, and the movement step plays the vertical walk animation,
    which is still the current one at the end of the frame when neither
    punch nor shoot replaced it. *)
Theorem diagonal_movement_faces_vertical k p :
  active (gameObject p) = true ->
  isShooting p = false ->
  keyPressed.up k || keyPressed.down k = true ->
  keyPressed.left k || keyPressed.right k = true ->
  let v := if keyPressed.up k then Orientation.up else Orientation.down in
  let walk := String.append "player-move-" (Orientation.to_string v) in
  let m := handleMovement k (with_gameObject (setVelocity 0 (gameObject p)) p) in
  let p' := update k p in
  velocityX (gameObject p') = (if keyPressed.left k then -100 else 100) /\
  velocityY (gameObject p') = (if keyPressed.up k then -100 else 100) /\
  orientation p' = v /\
  flipX (gameObject p') = false /\
  (orientation m = v /\ flipX (gameObject m) = false /\
   currentAnim (gameObject m) = Some walk) /\
  (keyPressed.space k = false ->
   keyPressed.shift k = false \/ isLoading p = true ->
   currentAnim (gameObject p') = Some walk).
Proof.
  intros Hact Hs Hv Hh v walk m p'. subst p'.
  rewrite update_active by assumption.
  pose proof (handleShootKey_motion k (before_shoot k p)) as (Ex & Ey & Ef & Eo).
  pose proof (diagonal_before_shoot k p Hs Hv Hh) as (Bx & By & Bo & Bf & Ba).
  rewrite Ex, Ey, Ef, Eo.
  repeat split; try assumption.
  - subst m v. movement_cases p k Hs Hv Hh.
  - subst m. movement_cases p k Hs Hv Hh.
  - subst m v walk. movement_cases p k Hs Hv Hh.
  - intros Hsp Hno. rewrite handleShootKey_anim_kept.
    + apply Ba, Hsp.
    + rewrite isLoading_before_shoot. exact Hno.
Qed.

(** ** The display list *)

Lemma setAlpha_idem s : setAlpha 0 (setAlpha 0 s) = setAlpha 0 s.
Proof. reflexivity. Qed.

Lemma only_hides_refl l : only_hides l l.
Proof. intros r s H. exists s. auto. Qed.

Lemma only_hides_trans l1 l2 l3 :
  only_hides l1 l2 -> only_hides l2 l3 -> only_hides l1 l3.
Proof.
  intros H12 H23 r s H.
  destruct (H12 r s H) as (s2 & H2 & E2).
  destruct (H23 r s2 H2) as (s3 & H3 & E3).
  exists s3. split; [exact H3 |].
  destruct E2 as [-> | ->], E3 as [-> | ->]; auto.
Qed.

Lemma only_hides_app l l2 : only_hides l (l ++ l2).
Proof.
  intros r s H. exists s. split; [| auto].
  rewrite lookup_app_l; [exact H |]. eapply lookup_lt_Some, H.
Qed.

Lemma only_hides_hide heart l : only_hides l (hide heart l).
Proof.
  intros r s H. unfold hide.
  destruct (decide (heart = r)) as [-> | Hne].
  - exists (setAlpha 0 s). rewrite list_lookup_alter_eq, H. cbn. auto.
  - exists s. rewrite list_lookup_alter_ne by exact Hne. auto.
Qed.

Lemma only_hides_updateHearts_from hp i hs l :
  only_hides l (updateHearts_from hp i hs l).
Proof.
  revert i l. induction hs as [| heart rest IH]; intros i l; cbn.
  - apply only_hides_refl.
  - eapply only_hides_trans; [| apply IH].
    destruct (js_ge (Z.of_nat i) hp);
      [apply only_hides_hide | apply only_hides_refl].
Qed.

Lemma length_updateHearts_from hp i hs l :
  length (updateHearts_from hp i hs l) = length l.
Proof.
  revert i l. induction hs as [| heart rest IH]; intros i l; cbn.
  - reflexivity.
  - rewrite IH. destruct (js_ge (Z.of_nat i) hp); [| reflexivity].
    unfold hide. apply length_alter.
Qed.

Lemma only_hides_hidden l l' r s :
  only_hides l l' -> l !! r = Some s -> alpha s = 0 ->
  exists s', l' !! r = Some s' /\ alpha s' = 0.
Proof.
  intros H Hr Ha. destruct (H r s Hr) as (s' & Hs' & [-> | ->]).
  - exists s. auto.
  - exists (setAlpha 0 s). auto.
Qed.

(** A heart at a position that is hidden ends up hidden. *)
Lemma updateHearts_from_hidden hp i hs l j r s :
  hs !! j = Some r ->
  js_ge (Z.of_nat (i + j)) hp = true ->
  l !! r = Some s ->
  updateHearts_from hp i hs l !! r = Some (setAlpha 0 s).
Proof.
  revert i l j s. induction hs as [| heart rest IH]; intros i l j s Hj Hge Hr.
  - discriminate Hj.
  - destruct j as [| j]; cbn in Hj |- *.
    + injection Hj as ->. rewrite Nat.add_0_r in Hge. rewrite Hge.
      assert (H1 : hide r l !! r = Some (setAlpha 0 s)).
      { unfold hide. rewrite list_lookup_alter_eq, Hr. reflexivity. }
      destruct (only_hides_updateHearts_from hp (S i) rest _ _ _ H1)
        as (s' & Hs' & [-> | ->]); exact Hs'.
    + replace (i + S j)%nat with (S i + j)%nat in Hge by lia.
      destruct (js_ge (Z.of_nat i) hp).
      * destruct (only_hides_hide heart l r s Hr) as (s1 & H1 & [-> | ->]).
        -- eapply IH; eassumption.
        -- rewrite <- (setAlpha_idem s). eapply IH; eassumption.
      * eapply IH; eassumption.
Qed.

(** A sprite that is at no hidden position of [hs] is left as it was. *)
Lemma updateHearts_from_kept hp i hs l r :
  (forall j, hs !! j = Some r -> js_ge (Z.of_nat (i + j)) hp = false) ->
  updateHearts_from hp i hs l !! r = l !! r.
Proof.
  revert i l. induction hs as [| heart rest IH]; intros i l Hno; cbn.
  - reflexivity.
  - rewrite IH.
    + destruct (js_ge (Z.of_nat i) hp) eqn:Hge; [| reflexivity].
      unfold hide. apply list_lookup_alter_ne. intros ->.
      specialize (Hno 0%nat eq_refl). rewrite Nat.add_0_r in Hno. congruence.
    + intros j Hj. specialize (Hno (S j) Hj).
      replace (i + S j)%nat with (S i + j)%nat in Hno by lia. exact Hno.
Qed.

Lemma map_add_sprite_eq mk ixs sc :
  map_add_sprite mk ixs sc
  = (seq (length (sprites sc)) (length ixs),
     set_sprites (sprites sc ++ map mk ixs) sc).
Proof.
  revert sc. induction ixs as [| i rest IH]; intros sc; cbn.
  - rewrite app_nil_r. destruct sc; reflexivity.
  - rewrite IH. cbn. rewrite length_app. cbn.
    rewrite Nat.add_1_r, <- app_assoc. reflexivity.
Qed.

(** What [update] leaves alone. *)
Lemma handleShootKey_frame k q :
  let q' := handleShootKey k q in
  registry (scene q') = registry (scene q) /\
  sprites (scene q') = sprites (scene q) /\
  hearts q' = hearts q /\
  tomb q' = tomb q /\
  lastTimeHit q' = lastTimeHit q /\
  active (gameObject q') = active (gameObject q).
Proof.
  cbn zeta. unfold handleShootKey.
  destruct (keyPressed.shift k) eqn:Hs; [| repeat split].
  destruct (isLoading q) eqn:Hl; [repeat split |].
  pose proof (handleShootKey_fires k q Hs Hl) as H. cbn zeta in H.
  unfold handleShootKey in H. rewrite Hs, Hl in H. rewrite H.
  repeat split.
Qed.

Lemma update_frame k p :
  let p' := update k p in
  registry (scene p') = registry (scene p) /\
  sprites (scene p') = sprites (scene p) /\
  hearts p' = hearts p /\
  tomb p' = tomb p /\
  lastTimeHit p' = lastTimeHit p /\
  active (gameObject p') = active (gameObject p).
Proof.
  cbn zeta. destruct (active (gameObject p)) eqn:Hact.
  - rewrite update_active by assumption.
    pose proof (handleShootKey_frame k (before_shoot k p))
      as (Hr & Hsp & Hh & Ht & Hl & Ha).
    pose proof (before_shoot_same k p)
      as (Bsc & _ & _ & Bt & Bh & Bl & _ & _ & Ba).
    rewrite Hr, Hsp, Hh, Ht, Hl, Ha, Bsc, Bt, Bh, Bl, Ba.
    repeat split; assumption.
  - rewrite update_inactive by assumption. repeat split; assumption.
Qed.

Lemma fire_frame cb p :
  scene (fire cb p) = scene p /\
  hearts (fire cb p) = hearts p /\
  tomb (fire cb p) = tomb p /\
  gameObject (fire cb p) = gameObject p.
Proof. destruct cb; repeat split. Qed.

(** ** Hit points *)

Lemma getHp_addHp k p : getHp (addHp k p) = Some (js_add (getHp p) k).
Proof.
  unfold getHp, addHp, setHp, registry_get, registry_set. cbn.
  apply lookup_insert_eq.
Qed.

(** [loseHp], step by step, for a stored integer [h] that the hit turns
    into the integer [h']. *)
Lemma loseHp_unfold_as now p h h' :
  getHp p = Some (Num h) ->
  js_add (Some (Num h)) (-1) = Num h' ->
  let refreshed :=
    updateHearts_from (Some (Num h')) 0 (hearts p) (sprites (scene p)) in
  let sc1 :=
    mkScene (<[PLAYER_HP := Num h']> (registry (scene p))) refreshed
      (timeEvents (scene p)) (arrows (scene p)) (treants (scene p))
      (colliders (scene p)) (physicsSprites (scene p)) in
  loseHp now p =
    if 0 <? h' then
      mkPlayer sc1 (gameObject p) (orientation p) now
        (isLoading p) (isShooting p) (tomb p) (hearts p)
    else
      match tomb p with
      | None =>
          mkPlayer
            (set_sprites (refreshed ++ [tomb_sprite (gameObject p)]) sc1)
            (destroy (gameObject p)) (orientation p) now
            (isLoading p) (isShooting p)
            (Some (length (sprites (scene p)))) (hearts p)
      | Some t =>
          mkPlayer sc1 (destroy (gameObject p)) (orientation p) now
            (isLoading p) (isShooting p) (Some t) (hearts p)
      end.
Proof.
  intros Hh Hadd. cbn zeta. unfold loseHp. cbn zeta.
  assert (H2 : getHp (addHp (-1) p) = Some (Num h')).
  { rewrite getHp_addHp, Hh, Hadd. reflexivity. }
  assert (H1 : getHp (with_lastTimeHit now (updateHearts (addHp (-1) p)))
               = Some (Num h')) by exact H2.
  rewrite H1. cbn [js_gt].
  unfold updateHearts. rewrite H2. clear H1 H2.
  destruct p as [sc g o t l s tb hs].
  unfold getHp, registry_get in Hh. cbn in Hh.
  unfold addHp, setHp, registry_set, registry_get.
  cbn [scene gameObject orientation lastTimeHit isLoading isShooting tomb
       hearts with_scene with_lastTimeHit with_tomb with_gameObject
       set_registry set_sprites registry sprites timeEvents arrows treants
       colliders physicsSprites add_sprite].
  rewrite Hh, Hadd.
  destruct (0 <? h'); [reflexivity |].
  destruct tb; [reflexivity |].
  cbn [scene gameObject orientation lastTimeHit isLoading isShooting tomb
       hearts with_scene with_lastTimeHit with_tomb with_gameObject
       set_registry set_sprites registry sprites timeEvents arrows treants
       colliders physicsSprites add_sprite].
  rewrite length_updateHearts_from. reflexivity.
Qed.

(** The same for a stored integer within the exact range, where the hit
    takes exactly one. *)
Lemma loseHp_unfold now p h :
  getHp p = Some (Num h) ->
  - 2 ^ 53 < h <= 2 ^ 53 ->
  let refreshed :=
    updateHearts_from (Some (Num (h - 1))) 0 (hearts p) (sprites (scene p)) in
  let sc1 :=
    mkScene (<[PLAYER_HP := Num (h - 1)]> (registry (scene p))) refreshed
      (timeEvents (scene p)) (arrows (scene p)) (treants (scene p))
      (colliders (scene p)) (physicsSprites (scene p)) in
  loseHp now p =
    if 0 <? h - 1 then
      mkPlayer sc1 (gameObject p) (orientation p) now
        (isLoading p) (isShooting p) (tomb p) (hearts p)
    else
      match tomb p with
      | None =>
          mkPlayer
            (set_sprites (refreshed ++ [tomb_sprite (gameObject p)]) sc1)
            (destroy (gameObject p)) (orientation p) now
            (isLoading p) (isShooting p)
            (Some (length (sprites (scene p)))) (hearts p)
      | Some t =>
          mkPlayer sc1 (destroy (gameObject p)) (orientation p) now
            (isLoading p) (isShooting p) (Some t) (hearts p)
      end.
Proof.
  intros Hh Hr. apply (loseHp_unfold_as now p h (h - 1) Hh).
  rewrite js_add_minus_one by lia.
  destruct (Z.eqb_spec h (- 2 ^ 53)); [lia | reflexivity].
Qed.

(** What [loseHp] does whatever the registry holds. *)
Lemma loseHp_frame now p :
  let p' := loseHp now p in
  hearts p' = hearts p /\
  lastTimeHit p' = now /\
  only_hides (sprites (scene p)) (sprites (scene p')) /\
  (active (gameObject p) = false -> active (gameObject p') = false) /\
  (forall t, tomb p = Some t ->
     tomb p' = Some t /\
     length (sprites (scene p')) = length (sprites (scene p))).
Proof.
  destruct p as [sc g o t l s tb hs]. unfold loseHp. cbn zeta.
  set (hp := getHp _).
  set (refreshed := updateHearts (addHp (-1) _)).
  assert (Hr : only_hides (sprites sc) (sprites (scene refreshed))).
  { subst refreshed. cbn. apply only_hides_updateHearts_from. }
  assert (Hlen : length (sprites (scene refreshed)) = length (sprites sc)).
  { subst refreshed. cbn. apply length_updateHearts_from. }
  destruct (js_gt hp 0).
  - cbn. repeat split; try assumption; cbn in *; congruence.
  - destruct tb as [t0 |]; cbn.
    + repeat split; try assumption; cbn in *; congruence.
    + repeat split; try discriminate.
      eapply only_hides_trans; [exact Hr | apply only_hides_app].
Qed.

Lemma loseHp_each_after_death nows p t :
  tomb p = Some t ->
  active (gameObject p) = false ->
  let q := loseHp_each nows p in
  tomb q = Some t /\
  length (sprites (scene q)) = length (sprites (scene p)) /\
  active (gameObject q) = false.
Proof.
  cbn zeta. revert p. induction nows as [| now rest IH]; intros p Ht Ha.
  - cbn. auto.
  - change (loseHp_each (now :: rest) p)
      with (loseHp_each rest (loseHp now p)).
    pose proof (loseHp_frame now p) as (_ & _ & _ & Hact & Htomb).
    destruct (Htomb t Ht) as (Ht' & Hlen).
    destruct (IH (loseHp now p) Ht' (Hact Ha)) as (E1 & E2 & E3).
    rewrite E1, E2, E3, Hlen. auto.
Qed.

(** The heart row after a refresh against the integer [h']. *)
Lemma refreshed_lookup h' hs l i r s :
  NoDup hs ->
  hs !! i = Some r ->
  l !! r = Some s ->
  updateHearts_from (Some (Num h')) 0 hs l !! r
  = Some (if h' <=? Z.of_nat i then setAlpha 0 s else s).
Proof.
  intros Hnd Hi Hr. destruct (Z.leb_spec h' (Z.of_nat i)) as [Hle | Hgt].
  - apply (updateHearts_from_hidden _ 0 _ _ i r s); try assumption.
    cbn. apply Z.leb_le. exact Hle.
  - rewrite updateHearts_from_kept; [exact Hr |].
    intros j Hj. cbn. rewrite (NoDup_lookup _ _ _ _ Hnd Hj Hi).
    apply Z.leb_gt. exact Hgt.
Qed.

Lemma refreshed_other hp hs l r :
  r ∉ hs -> updateHearts_from hp 0 hs l !! r = l !! r.
Proof.
  intros Hnot. apply updateHearts_from_kept.
  intros j Hj. exfalso. apply Hnot. apply list_elem_of_lookup. eauto.
Qed.

(** C3: for a stored hit-point integer [h] within the range where numbers
    are exact, [loseHp] stores [h - 1] and sets [lastTimeHit] to the current
    time.  It refreshes the distinct hearts against the new value: the
    sprite of heart [i] has alpha 0 and is otherwise as before when
    [i >= h - 1], and is untouched when [i < h - 1]; no other sprite of the
    display list changes.  While the new value is positive nothing else
    changes.  Once it is 0 or less the game object is destroyed and, if the
    actor had no tomb yet, one tomb sprite is added to the display list, at
    the game object's position; an actor that already has its tomb gets no
    second one, so whatever calls follow, the tomb stays the same sprite and
    the display list does not grow. *)
Theorem loseHp_spec now p h :
  getHp p = Some (Num h) ->
  - 2 ^ 53 < h <= 2 ^ 53 ->
  NoDup (hearts p) ->
  let p' := loseHp now p in
  let n := length (sprites (scene p)) in
  getHp p' = Some (Num (h - 1)) /\
  lastTimeHit p' = now /\
  hearts p' = hearts p /\
  (forall i r s,
     hearts p !! i = Some r ->
     sprites (scene p) !! r = Some s ->
     sprites (scene p') !! r
       = Some (if h - 1 <=? Z.of_nat i
               then mkSprite (spriteX s) (spriteY s) (texture s)
                      (scrollFactor s) (depth s) (scale s) 0
               else s)) /\
  (forall r,
     r ∉ hearts p -> (r < n)%nat ->
     sprites (scene p') !! r = sprites (scene p) !! r) /\
  (0 < h - 1 ->
   length (sprites (scene p')) = n /\
   gameObject p' = gameObject p /\
   tomb p' = tomb p) /\
  (h - 1 <= 0 ->
   active (gameObject p') = false /\
   match tomb p with
   | None =>
       tomb p' = Some n /\
       length (sprites (scene p')) = S n /\
       sprites (scene p') !! n
         = Some (mkSprite (goX (gameObject p)) (goY (gameObject p)) "tomb"
                   1 0 (Qmake 1 10) 1)
   | Some t => tomb p' = Some t /\ length (sprites (scene p')) = n
   end /\
   forall nows,
     tomb (loseHp_each nows p') = tomb p' /\
     length (sprites (scene (loseHp_each nows p')))
       = length (sprites (scene p'))).
Proof.
  intros Hh Hrange Hnd p' n.
  pose proof (loseHp_unfold now p h Hh Hrange) as E. cbn zeta in E.
  fold p' in E.
  set (refreshed :=
         updateHearts_from (Some (Num (h - 1))) 0 (hearts p)
           (sprites (scene p))) in E.
  assert (Hlen : length refreshed = n) by apply length_updateHearts_from.
  assert (Hsp : exists extra, sprites (scene p') = refreshed ++ extra).
  { rewrite E. destruct (0 <? h - 1); [| destruct (tomb p)]; cbn;
      first [ exists []; rewrite app_nil_r; reflexivity | eauto ]. }
  destruct Hsp as (extra & Hsp).
  assert (Hin : forall r, (r < n)%nat ->
                sprites (scene p') !! r = refreshed !! r).
  { intros r Hr. rewrite Hsp. apply lookup_app_l. lia. }
  split.
  { rewrite E. unfold getHp, registry_get.
    destruct (0 <? h - 1); [| destruct (tomb p)]; cbn;
      apply lookup_insert_eq. }
  split; [rewrite E; destruct (0 <? h - 1); [| destruct (tomb p)];
          reflexivity |].
  split; [rewrite E; destruct (0 <? h - 1); [| destruct (tomb p)];
          reflexivity |].
  split.
  { intros i r s Hi Hr. rewrite Hin by (eapply lookup_lt_Some, Hr).
    apply (refreshed_lookup (h - 1) _ _ i r s Hnd Hi Hr). }
  split.
  { intros r Hnot Hr. rewrite Hin by exact Hr.
    apply refreshed_other, Hnot. }
  split.
  - intros Hpos. apply Z.ltb_lt in Hpos. rewrite Hpos in E. rewrite E.
    cbn. auto.
  - intros Hdead. apply Z.ltb_ge in Hdead. rewrite Hdead in E.
    assert (Hact : active (gameObject p') = false).
    { rewrite E. destruct (tomb p); reflexivity. }
    assert (Htomb : exists t, tomb p' = Some t).
    { rewrite E. destruct (tomb p); cbn; eauto. }
    split; [exact Hact |]. split.
    + rewrite E. destruct (tomb p); cbn.
      * auto.
      * rewrite length_app, Hlen. cbn.
        split; [reflexivity |]. split; [lia |].
        rewrite lookup_app_r by lia.
        rewrite Hlen, Nat.sub_diag. reflexivity.
    + intros nows. destruct Htomb as (t & Ht).
      pose proof (loseHp_each_after_death nows p' t Ht Hact) as (E1 & E2 & _).
      rewrite E1, Ht. split; [reflexivity | exact E2].
Qed.

(** ** Construction *)

Lemma registry_get_set v sc : registry_get (registry_set v sc) = Some v.
Proof. unfold registry_get, registry_set. cbn. apply lookup_insert_eq. Qed.

(** The hit points the constructor works with, after seeding. *)
Lemma seeded_hp sc :
  registry_get
    (if falsy (registry_get sc) then registry_set (Num MAX_HP) sc else sc)
  = if falsy (registry_get sc) then Some (Num MAX_HP) else registry_get sc.
Proof.
  destruct (falsy (registry_get sc)); [apply registry_get_set | reflexivity].
Qed.

Lemma new_Player_unfold sc x y now :
  let hp :=
    if falsy (registry_get sc) then Some (Num MAX_HP) else registry_get sc in
  let sc1 :=
    physics_add_sprite (mkPhysicsSprite x y "player-idle-down" 0)
      (if falsy (registry_get sc) then registry_set (Num MAX_HP) sc else sc) in
  let empties := map (heart_sprite "heart-empty" 50) [0; 1; 2]%nat in
  let sc2 := set_sprites (sprites sc ++ empties) sc1 in
  new_Player sc x y now =
    match js_Array hp with
    | None => RangeError sc2
    | Some ixs =>
        Ok (mkPlayer
              (set_sprites
                 (sprites sc ++ empties ++ map (heart_sprite "heart" 100) ixs)
                 sc1)
              (new_gameObject x y) Orientation.down now false false None
              (seq (length (sprites sc) + 3) (length ixs)))
    end.
Proof.
  cbn zeta. unfold new_Player, initHearts.
  cbn [scene]. rewrite map_add_sprite_eq.
  set (sc0 := if falsy (registry_get sc) then _ else sc).
  assert (Hs : sprites sc0 = sprites sc).
  { subst sc0. destruct (falsy (registry_get sc)); reflexivity. }
  change (registry_get (set_sprites _ (physics_add_sprite _ sc0)))
    with (registry_get sc0).
  subst sc0. rewrite seeded_hp.
  set (sc0 := if falsy (registry_get sc) then _ else sc) in *.
  destruct (js_Array _) as [ixs |].
  - rewrite map_add_sprite_eq. cbn. rewrite Hs.
    rewrite length_app, <- app_assoc. reflexivity.
  - cbn. rewrite Hs. reflexivity.
Qed.

Lemma new_Player_registry sc x y now :
  registry (result_scene (new_Player sc x y now))
  = if falsy (registry_get sc)
    then <[PLAYER_HP := Num MAX_HP]> (registry sc)
    else registry sc.
Proof.
  pose proof (new_Player_unfold sc x y now) as E. cbn zeta in E. rewrite E.
  destruct (js_Array _); destruct (falsy (registry_get sc)); reflexivity.
Qed.

Lemma new_Player_only_hides sc x y now :
  only_hides (sprites sc) (sprites (result_scene (new_Player sc x y now))).
Proof.
  pose proof (new_Player_unfold sc x y now) as E. cbn zeta in E. rewrite E.
  destruct (js_Array _); cbn; apply only_hides_app.
Qed.

Lemma new_Player_Ok sc x y now p :
  new_Player sc x y now = Ok p ->
  gameObject p = new_gameObject x y /\
  tomb p = None /\
  NoDup (hearts p) /\
  exists ixs,
    js_Array (registry_get (result_scene (new_Player sc x y now))) = Some ixs /\
    hearts p = seq (length (sprites sc) + 3) (length ixs).
Proof.
  intros Hok.
  pose proof (new_Player_registry sc x y now) as Hreg.
  pose proof (new_Player_unfold sc x y now) as E. cbn zeta in E.
  rewrite Hok in Hreg. rewrite Hok in E.
  assert (Hget : registry_get (result_scene (Ok p))
                 = if falsy (registry_get sc)
                   then Some (Num MAX_HP) else registry_get sc).
  { unfold registry_get at 1. rewrite Hreg.
    destruct (falsy (registry_get sc));
      [apply lookup_insert_eq | reflexivity]. }
  rewrite Hok, Hget.
  destruct (js_Array _) as [ixs |]; [| discriminate E].
  injection E as ->. cbn.
  repeat split; [apply NoDup_seq | eauto].
Qed.

(** ** Heart indicators *)

(** C6: for a stored hit-point number [h] and distinct heart sprites,
    [updateHearts] hides (alpha 0, nothing else changed) every heart at an
    index [i >= h] and leaves every heart at an index [i < h] as it was.
    No operation shows a hidden sprite again: across [update], [loseHp], a
    timer callback, [updateHearts] and the construction of a new actor on
    the scene, a sprite with alpha 0 still has alpha 0, and the actor's
    list of hearts is the same. *)
Theorem updateHearts_hides_from_hp p h :
  getHp p = Some (Num h) ->
  NoDup (hearts p) ->
  let p' := updateHearts p in
  hearts p' = hearts p /\
  (forall i r s,
     hearts p !! i = Some r ->
     sprites (scene p) !! r = Some s ->
     (h <= Z.of_nat i -> sprites (scene p') !! r = Some (setAlpha 0 s)) /\
     (Z.of_nat i < h -> sprites (scene p') !! r = Some s)) /\
  (forall (q : Player) r s,
     sprites (scene q) !! r = Some s ->
     alpha s = 0 ->
     (forall o,
        hearts (run o q) = hearts q /\
        exists s', sprites (scene (run o q)) !! r = Some s' /\ alpha s' = 0) /\
     (exists s', sprites (scene (updateHearts q)) !! r = Some s' /\
                 alpha s' = 0) /\
     (forall x y now,
        exists s',
          sprites (result_scene (new_Player (scene q) x y now)) !! r = Some s' /\
          alpha s' = 0)).
Proof.
  intros Hh Hnd p'. subst p'. split; [reflexivity |]. split.
  - intros i r s Hi Hr. unfold updateHearts. cbn. rewrite Hh. split.
    + intros Hge.
      apply (updateHearts_from_hidden _ 0 _ _ i r s); try assumption.
      cbn. apply Z.leb_le. exact Hge.
    + intros Hlt. rewrite updateHearts_from_kept; [exact Hr |].
      intros j Hj. cbn.
      rewrite (NoDup_lookup _ _ _ _ Hnd Hj Hi).
      apply Z.leb_gt. exact Hlt.
  - intros q r s Hr Ha. split; [| split].
    + intros o. split.
      * destruct o as [k | now | cb]; cbn.
        -- apply update_frame.
        -- apply loseHp_frame.
        -- apply fire_frame.
      * eapply only_hides_hidden; [| exact Hr | exact Ha].
        destruct o as [k | now | cb]; cbn.
        -- pose proof (update_frame k q) as (_ & E & _). rewrite E.
           apply only_hides_refl.
        -- apply loseHp_frame.
        -- pose proof (fire_frame cb q) as (E & _). rewrite E.
           apply only_hides_refl.
    + eapply only_hides_hidden; [| exact Hr | exact Ha].
      unfold updateHearts. cbn. apply only_hides_updateHearts_from.
    + intros x y now.
      eapply only_hides_hidden; [| exact Hr | exact Ha].
      apply new_Player_only_hides.
Qed.

(** C7 (amended): construction leaves the registry as it is when it holds
    a hit-point number other than 0, whether the constructor then returns
    or throws; an absent entry, and also a stored 0 or NaN, is replaced by
    the maximum, 3. *)
Theorem new_Player_keeps_nonzero_hp sc x y now :
  let sc' := result_scene (new_Player sc x y now) in
  (forall v,
     registry sc !! PLAYER_HP = Some (Num v) -> v <> 0 ->
     registry sc' = registry sc /\
     registry sc' !! PLAYER_HP = Some (Num v)) /\
  (registry sc !! PLAYER_HP = None \/
   registry sc !! PLAYER_HP = Some (Num 0) \/
   registry sc !! PLAYER_HP = Some NaN ->
   registry sc' = <[PLAYER_HP := Num 3]> (registry sc) /\
   registry sc' !! PLAYER_HP = Some (Num 3)).
Proof.
  cbn zeta. rewrite new_Player_registry. unfold registry_get. split.
  - intros v Hv Hne. rewrite Hv. cbn.
    destruct (Z.eqb_spec v 0) as [-> | _]; [contradiction |].
    split; [reflexivity | exact Hv].
  - intros [H | [H | H]]; rewrite H; cbn;
      (split; [reflexivity | apply lookup_insert_eq]).
Qed.

(** ** Reachable states *)

Lemma getHp_new_Player sc x y now p :
  new_Player sc x y now = Ok p ->
  getHp p
  = if falsy (registry_get sc) then Some (Num MAX_HP) else registry_get sc.
Proof.
  intros Hok. pose proof (new_Player_registry sc x y now) as H.
  rewrite Hok in H. cbn in H. unfold getHp, registry_get at 1. rewrite H.
  destruct (falsy (registry_get sc)); [apply lookup_insert_eq | reflexivity].
Qed.

Lemma new_Player_Ok_hp sc x y now p :
  new_Player sc x y now = Ok p ->
  exists h, getHp p = Some (Num h) /\ 0 < h /\
            (falsy (registry_get sc) = true -> h = 3) /\
            (falsy (registry_get sc) = false -> registry_get sc = Some (Num h)).
Proof.
  intros Hok.
  pose proof (getHp_new_Player _ _ _ _ _ Hok) as Hhp.
  destruct (new_Player_Ok _ _ _ _ _ Hok) as (_ & _ & _ & ixs & Harr & _).
  rewrite Hok in Harr. cbn in Harr. fold (getHp p) in Harr.
  destruct (falsy (registry_get sc)) eqn:Hf.
  - exists 3. repeat split; try assumption; try lia; discriminate.
  - rewrite Hhp in Harr.
    destruct (registry_get sc) as [[h | m e | s |] |] eqn:Hg;
      try discriminate Hf; try discriminate Harr.
    cbn in Hf, Harr. exists h.
    assert (0 < h); [| repeat split; try assumption; try discriminate].
    destruct (0 <=? h) eqn:H0; [| discriminate Harr].
    apply Z.leb_le in H0. apply Z.eqb_neq in Hf. lia.
Qed.

(** The invariant behind the bounds: the stored value is an integer at most
    3 that never leaves the exact range; under the guard it is at least 0,
    and at least 1 while the game object is active. *)
Lemma reachable_inv guarded p :
  reachable guarded p ->
  exists h, getHp p = Some (Num h) /\ - 2 ^ 53 <= h <= 3 /\
    (guarded = true ->
     0 <= h /\ (active (gameObject p) = true -> 1 <= h)).
Proof.
  induction 1 as [sc x y now p Hnone Hok
                 | q x y now p Hq IH Hok
                 | q k Hq IH
                 | q cb Hq IH
                 | q now Hq IH Hguard].
  - destruct (new_Player_Ok_hp _ _ _ _ _ Hok) as (h & Hh & Hpos & H3 & _).
    assert (h = 3) as ->.
    { apply H3. unfold registry_get. rewrite Hnone. reflexivity. }
    exists 3. split; [exact Hh |]. split; [lia |]. intros _. split; lia.
  - destruct IH as (h0 & Hh0 & Hle & _).
    destruct (new_Player_Ok_hp _ _ _ _ _ Hok) as (h & Hh & Hpos & H3 & Hkeep).
    exists h. split; [exact Hh |].
    assert (h <= 3).
    { destruct (falsy (registry_get (scene q))) eqn:Hf.
      - rewrite (H3 eq_refl). lia.
      - specialize (Hkeep eq_refl). unfold getHp in Hh0.
        rewrite Hh0 in Hkeep. injection Hkeep as ->. lia. }
    split; [lia |]. intros _. split; lia.
  - destruct IH as (h & Hh & Hle & Hg).
    pose proof (update_frame k q) as (Er & _ & _ & _ & _ & Ea).
    exists h. unfold getHp, registry_get in *. rewrite Er, Ea.
    auto.
  - destruct IH as (h & Hh & Hle & Hg).
    pose proof (fire_frame cb q) as (Es & _ & _ & Eg).
    exists h. unfold getHp in *. rewrite Es, Eg. auto.
  - destruct IH as (h & Hh & Hle & Hg).
    set (h' := if h =? - 2 ^ 53 then h else h - 1).
    assert (Hadd : js_add (Some (Num h)) (-1) = Num h')
      by (apply js_add_minus_one; lia).
    assert (Hh' : - 2 ^ 53 <= h' <= h /\ (0 < h -> h' = h - 1)).
    { subst h'. destruct (Z.eqb_spec h (- 2 ^ 53)); lia. }
    pose proof (loseHp_unfold_as now q h h' Hh Hadd) as E. cbn zeta in E.
    exists h'. split; [| split; [lia |]].
    + rewrite E. unfold getHp, registry_get.
      destruct (0 <? h'); [| destruct (tomb q)]; cbn;
        apply lookup_insert_eq.
    + intros Hgd. destruct (Hg Hgd) as (_ & Hact).
      specialize (Hact (Hguard Hgd)). split; [lia |].
      rewrite E. destruct (0 <? h') eqn:Hpos.
      * apply Z.ltb_lt in Hpos. intros _. lia.
      * destruct (tomb q); cbn; discriminate.
Qed.

(** In a reachable state the hearts are distinct sprites of the display
    list, which is what [updateHearts] needs. *)
Lemma reachable_hearts_wf guarded p :
  reachable guarded p ->
  NoDup (hearts p) /\
  forall r, r ∈ hearts p -> is_Some (sprites (scene p) !! r).
Proof.
  assert (Hnew : forall sc x y now q,
    new_Player sc x y now = Ok q ->
    NoDup (hearts q) /\
    forall r, r ∈ hearts q -> is_Some (sprites (scene q) !! r)).
  { intros sc x y now q Hok.
    split; [apply (new_Player_Ok _ _ _ _ _ Hok) |].
    pose proof (new_Player_unfold sc x y now) as E. cbn zeta in E.
    rewrite Hok in E. destruct (js_Array _) as [ixs |]; [| discriminate E].
    injection E as ->. cbn [hearts scene sprites set_sprites]. intros r Hr.
    apply elem_of_seq in Hr. apply lookup_lt_is_Some.
    rewrite length_app. cbn [length]. rewrite length_map. lia. }
  assert (Hstep : forall (q q' : Player),
    hearts q' = hearts q ->
    only_hides (sprites (scene q)) (sprites (scene q')) ->
    (NoDup (hearts q) /\
     forall r, r ∈ hearts q -> is_Some (sprites (scene q) !! r)) ->
    NoDup (hearts q') /\
    forall r, r ∈ hearts q' -> is_Some (sprites (scene q') !! r)).
  { intros q q' Eh Ho (Hnd & Hv). rewrite Eh. split; [exact Hnd |].
    intros r Hr. destruct (Hv r Hr) as (s & Hs).
    destruct (Ho r s Hs) as (s' & Hs' & _). eauto. }
  induction 1 as [sc x y now p Hnone Hok
                 | q x y now p Hq IH Hok
                 | q k Hq IH
                 | q cb Hq IH
                 | q now Hq IH Hguard].
  - eapply Hnew, Hok.
  - eapply Hnew, Hok.
  - pose proof (update_frame k q) as (_ & Es & Eh & _).
    apply (Hstep q); [exact Eh | rewrite Es; apply only_hides_refl | exact IH].
  - pose proof (fire_frame cb q) as (Es & Eh & _).
    apply (Hstep q); [exact Eh | rewrite Es; apply only_hides_refl | exact IH].
  - pose proof (loseHp_frame now q) as (Eh & _ & Ho & _).
    apply (Hstep q); [exact Eh | exact Ho | exact IH].
Qed.

(** C4 (amended): in every state reached from a scene without a hit-point
    entry by construction, [update], timer callbacks and [loseHp], the
    stored hit-point value is a number at most 3; when [loseHp] is only
    applied to an actor whose game object is still active, it also stays
    at 0 or more. *)
Theorem hp_bounds guarded p :
  reachable guarded p ->
  exists h, getHp p = Some (Num h) /\ h <= 3 /\ (guarded = true -> 0 <= h).
Proof.
  intros H. destruct (reachable_inv guarded p H) as (h & Hh & Hle & Hg).
  exists h. split; [exact Hh |]. split; [lia |].
  intros Hgd. apply Hg, Hgd.
Qed.

(** ** Movement, facing and animation of a frame *)

(** Melee and the idle fallback leave velocity and orientation to the
    movement step. *)
Lemma before_shoot_motion k p :
  let m := handleMovement k (with_gameObject (setVelocity 0 (gameObject p)) p) in
  velocityX (gameObject (before_shoot k p)) = velocityX (gameObject m) /\
  velocityY (gameObject (before_shoot k p)) = velocityY (gameObject m) /\
  orientation (before_shoot k p) = orientation m.
Proof.
  cbn zeta. unfold before_shoot. cbn zeta.
  destruct (keyPressed.space k);
    match goal with
    | |- context [if ?c then _ else _] => destruct c
    end; repeat split.
Qed.

Lemma update_motion k p :
  active (gameObject p) = true ->
  let m := handleMovement k (with_gameObject (setVelocity 0 (gameObject p)) p) in
  velocityX (gameObject (update k p)) = velocityX (gameObject m) /\
  velocityY (gameObject (update k p)) = velocityY (gameObject m) /\
  orientation (update k p) = orientation m.
Proof.
  intros Hact. cbn zeta. rewrite update_active by assumption.
  pose proof (handleShootKey_motion k (before_shoot k p)) as (Ex & Ey & _ & Eo).
  pose proof (before_shoot_motion k p) as (Bx & By & Bo). cbn zeta in Bx, By, Bo.
  rewrite Ex, Ey, Eo, Bx, By, Bo. repeat split.
Qed.

(** X1: while the movement lock is set, a frame on a live actor ends with
    zero velocity on both axes and the orientation it had, whatever keys are
    held. *)
Theorem movement_locked_frame k p :
  active (gameObject p) = true ->
  isShooting p = true ->
  velocityX (gameObject (update k p)) = 0 /\
  velocityY (gameObject (update k p)) = 0 /\
  orientation (update k p) = orientation p.
Proof.
  intros Hact Hs.
  pose proof (update_motion k p Hact) as (Ex & Ey & Eo). cbn zeta in Ex, Ey, Eo.
  rewrite Ex, Ey, Eo. unfold handleMovement. cbn. rewrite Hs.
  repeat split.
Qed.

(** X2: without the movement lock, the velocity at the end of a frame on a
    live actor is a function of the held keys alone: -100, 100 or 0 on each
    axis, left winning over right and up over down; the velocity the actor
    had before plays no part. *)
Theorem velocity_of_keys k p :
  active (gameObject p) = true ->
  isShooting p = false ->
  velocityX (gameObject (update k p))
    = (if keyPressed.left k then -100
       else if keyPressed.right k then 100 else 0) /\
  velocityY (gameObject (update k p))
    = (if keyPressed.up k then -100
       else if keyPressed.down k then 100 else 0).
Proof.
  intros Hact Hs.
  pose proof (update_motion k p Hact) as (Ex & Ey & _). cbn zeta in Ex, Ey.
  rewrite Ex, Ey.
  destruct p as [? ? ? ? ? s ? ?]. cbn in Hs. subst s.
  unfold handleMovement, handleVerticalMovement, handleHorizontalMovement.
  destruct k as [[] [] [] [] ? ?]; split; reflexivity.
Qed.

(** X3: without the movement lock, the facing at the end of a frame on a
    live actor is read off the keys in the order up, down, left, right, and
    is the previous one when none of them is held; when one is held the
    sprite ends mirrored exactly when the actor ends facing left. *)
Theorem facing_of_keys k p :
  active (gameObject p) = true ->
  isShooting p = false ->
  orientation (update k p)
    = (if keyPressed.up k then Orientation.up
       else if keyPressed.down k then Orientation.down
       else if keyPressed.left k then Orientation.left
       else if keyPressed.right k then Orientation.right
       else orientation p) /\
  (keyPressed.up k || keyPressed.down k
     || keyPressed.left k || keyPressed.right k = true ->
   flipX (gameObject (update k p))
     = Orientation.eqb (orientation (update k p)) Orientation.left).
Proof.
  intros Hact Hs.
  pose proof (update_motion k p Hact) as (_ & _ & Eo). cbn zeta in Eo.
  assert (Hflip : flipX (gameObject (update k p))
                  = flipX (gameObject (before_shoot k p))).
  { rewrite update_active by assumption. apply handleShootKey_motion. }
  rewrite Hflip, Eo. clear Hflip Eo Hact.
  destruct p as [? ? ? ? l s ? ?]. cbn in Hs. subst s.
  unfold before_shoot, noKeyPressed, handleMovement, handleVerticalMovement,
    handleHorizontalMovement.
  destruct k as [[] [] [] [] [] ksh]; cbn;
    (split; [reflexivity | intros Hk; first [discriminate Hk | reflexivity]]).
Qed.

Lemma before_shoot_anim k p :
  let q := before_shoot k p in
  currentAnim (gameObject q)
  = (if keyPressed.space k
     then Some (anim (punch_animSwitch (orientation q)))
     else if negb (isShooting p)
             && (keyPressed.up k || keyPressed.down k
                 || keyPressed.left k || keyPressed.right k)
     then Some (String.append "player-move-"
                  (Orientation.to_string (orientation q)))
     else if noKeyPressed k && negb (isLoading p)
     then Some (anim (idle_animSwitch (orientation q)))
     else currentAnim (gameObject p)).
Proof.
  destruct p as [? ? ? ? l s ? ?].
  unfold before_shoot, noKeyPressed, handleMovement, handleVerticalMovement,
    handleHorizontalMovement.
  destruct k as [ku kd kl kr [] ksh].
  - destruct s, ku, kd, kl, kr, ksh; reflexivity.
  - destruct s.
    + destruct ku, kd, kl, kr, ksh, l; reflexivity.
    + destruct ku, kd, kl, kr; try reflexivity. destruct ksh, l; reflexivity.
Qed.

(** X4: which animation a frame on a live actor ends on, by priority: the
    ranged-attack animation when the shot fires (ranged key held, reload lock
    clear); otherwise the melee animation when the melee key is held;
    otherwise the walk animation when a direction key is held and movement is
    not locked; otherwise the idle animation when no key is held and no
    reload is in progress; otherwise the animation is the one from before.
    Each is the variant of the facing the frame ends with. *)
Theorem animation_priority k p :
  active (gameObject p) = true ->
  let o := orientation (update k p) in
  currentAnim (gameObject (update k p))
  = (if keyPressed.shift k && negb (isLoading p)
     then Some (shoot_animSwitch o)
     else if keyPressed.space k
     then Some (anim (punch_animSwitch o))
     else if negb (isShooting p)
             && (keyPressed.up k || keyPressed.down k
                 || keyPressed.left k || keyPressed.right k)
     then Some (String.append "player-move-" (Orientation.to_string o))
     else if noKeyPressed k && negb (isLoading p)
     then Some (anim (idle_animSwitch o))
     else currentAnim (gameObject p)).
Proof.
  intros Hact. cbn zeta. rewrite update_active by assumption.
  pose proof (isLoading_before_shoot k p) as Hl.
  destruct (keyPressed.shift k) eqn:Hs; destruct (isLoading p) eqn:Hlp; cbn [andb negb].
  - rewrite handleShootKey_anim_kept by (right; congruence).
    pose proof (before_shoot_anim k p) as E. cbn zeta in E.
    rewrite Hlp in E. exact E.
  - rewrite handleShootKey_fires by congruence. reflexivity.
  - rewrite handleShootKey_anim_kept by (left; exact Hs).
    pose proof (before_shoot_anim k p) as E. cbn zeta in E.
    rewrite Hlp in E. exact E.
  - rewrite handleShootKey_anim_kept by (left; exact Hs).
    pose proof (before_shoot_anim k p) as E. cbn zeta in E.
    rewrite Hlp in E. exact E.
Qed.

(** X5: a frame without the ranged key held changes neither lock and leaves
    the scene (registry, sprites, timer events, arrows, colliders) as it was:
    movement, melee and the idle fallback schedule and create nothing. *)
Theorem frame_without_shift k p :
  keyPressed.shift k = false ->
  scene (update k p) = scene p /\
  isLoading (update k p) = isLoading p /\
  isShooting (update k p) = isShooting p.
Proof.
  intros Hs. destruct (active (gameObject p)) eqn:Hact.
  - rewrite update_active by assumption.
    rewrite handleShootKey_anim_kept by (left; exact Hs).
    pose proof (before_shoot_same k p) as (E1 & E2 & E3 & _). auto.
  - rewrite update_inactive by assumption. auto.
Qed.

(** ** Locks and their release *)

Lemma update_fires k p :
  active (gameObject p) = true ->
  keyPressed.shift k = true ->
  isLoading p = false ->
  length (arrows (scene (update k p))) = S (length (arrows (scene p))) /\
  isLoading (update k p) = true /\
  isShooting (update k p) = true /\
  active (gameObject (update k p)) = true.
Proof.
  intros Hact Hs Hl.
  pose proof (update_frame k p) as (_ & _ & _ & _ & _ & Ha).
  rewrite Ha. rewrite update_active by assumption.
  rewrite handleShootKey_fires
    by (try assumption; rewrite isLoading_before_shoot; assumption).
  cbn. rewrite length_app, scene_before_shoot. cbn.
  repeat split; [lia | assumption].
Qed.

Lemma update_refused k p :
  isLoading p = true ->
  arrows (scene (update k p)) = arrows (scene p) /\
  timeEvents (scene (update k p)) = timeEvents (scene p) /\
  isLoading (update k p) = true.
Proof.
  intros Hl. destruct (active (gameObject p)) eqn:Hact.
  - rewrite update_active by assumption.
    rewrite handleShootKey_anim_kept
      by (right; rewrite isLoading_before_shoot; exact Hl).
    rewrite scene_before_shoot, isLoading_before_shoot. auto.
  - rewrite update_inactive by assumption. auto.
Qed.

(** X6: the reload cycle.  After a frame that fired, a further frame with
    the ranged key held adds no arrow and schedules nothing, also once the
    shoot lock has been released by its callback (which gives movement back
    but not the weapon); once the reload callback has run, such a frame
    fires again and adds the second arrow.  The two callbacks commute and
    together clear both locks. *)
Theorem reload_cycle k k2 p :
  active (gameObject p) = true ->
  keyPressed.shift k = true ->
  isLoading p = false ->
  keyPressed.shift k2 = true ->
  let n := length (arrows (scene p)) in
  let p1 := update k p in
  let moving := fire cb_endShoot p1 in
  let ready := fire cb_readyToFire p1 in
  length (arrows (scene (update k2 p1))) = S n /\
  timeEvents (scene (update k2 p1)) = timeEvents (scene p1) /\
  (isShooting moving = false /\ isLoading moving = true /\
   length (arrows (scene (update k2 moving))) = S n) /\
  length (arrows (scene (update k2 ready))) = S (S n) /\
  fire cb_endShoot ready = fire cb_readyToFire moving /\
  isLoading (fire cb_endShoot ready) = false /\
  isShooting (fire cb_endShoot ready) = false.
Proof.
  intros Hact Hs Hl Hs2 n p1 moving ready.
  destruct (update_fires k p Hact Hs Hl) as (Hn & Hl1 & Hs1 & Ha1).
  fold p1 in Hn, Hl1, Hs1, Ha1.
  split; [| split; [| split; [| split]]].
  - destruct (update_refused k2 p1 Hl1) as (E & _). rewrite E. exact Hn.
  - apply (update_refused k2 p1 Hl1).
  - split; [reflexivity |]. split; [exact Hl1 |].
    destruct (update_refused k2 moving Hl1) as (E & _). rewrite E. exact Hn.
  - destruct (update_fires k2 ready Ha1 Hs2 eq_refl) as (E & _).
    rewrite E. cbn. rewrite Hn. reflexivity.
  - repeat split.
Qed.

(** ** The constructor *)

(** X7: the constructor throws exactly when the registry already holds a
    hit-point number that is neither falsy nor a valid array length for the
    heart row: a negative integer, an integer of [2 ^ 32] or more, a number
    that is not an integer, or an infinity.  With no entry, with 0 or NaN,
    or with an integer from 1 to [2 ^ 32 - 1] it returns the actor. *)
Theorem new_Player_throws_iff sc x y now :
  (exists sc', new_Player sc x y now = RangeError sc') <->
  (exists v,
     registry sc !! PLAYER_HP = Some v /\
     match v with
     | Num z => z < 0 \/ 2 ^ 32 <= z
     | Frac _ _ | Infinity _ => True
     | NaN => False
     end).
Proof.
  pose proof (new_Player_unfold sc x y now) as E. cbn zeta in E.
  rewrite E. clear E. unfold registry_get.
  destruct (registry sc !! PLAYER_HP) as [[v | m e | s |] |] eqn:Hv; cbn.
  - destruct (Z.eqb_spec v 0) as [-> | Hne]; cbn.
    + split; [intros (sc' & H); discriminate H |].
      intros (v & Hv' & Hr). injection Hv' as <-. lia.
    + destruct (Z.leb_spec 0 v) as [H0 | H0];
        destruct (Z.ltb_spec v (2 ^ 32)) as [H1 | H1]; cbn;
        (split;
         [ intros (sc' & Hthrow);
           first [discriminate Hthrow
                 | eexists; split; [reflexivity | cbn; lia]]
         | intros (v' & Hv' & Hr); injection Hv' as <-;
           first [lia | eexists; reflexivity] ]).
  - split; [intros _; eexists; split; [reflexivity | exact I]
           | intros _; eexists; reflexivity].
  - split; [intros _; eexists; split; [reflexivity | exact I]
           | intros _; eexists; reflexivity].
  - split; [intros (sc' & H); discriminate H |].
    intros (v & H & Hv'). injection H as <-. contradiction.
  - split; [intros (sc' & H); discriminate H | intros (v & H & _); discriminate H].
Qed.

(** X8: when the constructor throws, the scene has already received the
    actor's physics sprite, made at [(x, y)] from 'player-idle-down', and
    the three backdrop hearts at (15, 15), (30, 15) and (45, 15); registry,
    timer events, arrows, treants and colliders are those of the scene it
    was given, and no filled heart was added. *)
Theorem new_Player_thrown_scene sc x y now sc' :
  new_Player sc x y now = RangeError sc' ->
  sc' = mkScene (registry sc)
          (sprites sc
             ++ [mkSprite 15 15 "heart-empty" 0 50 (Qmake 1 1) 1;
                 mkSprite 30 15 "heart-empty" 0 50 (Qmake 1 1) 1;
                 mkSprite 45 15 "heart-empty" 0 50 (Qmake 1 1) 1])
          (timeEvents sc) (arrows sc) (treants sc) (colliders sc)
          (physicsSprites sc ++ [mkPhysicsSprite x y "player-idle-down" 0]).
Proof.
  intros H.
  pose proof (new_Player_unfold sc x y now) as E. cbn zeta in E.
  rewrite H in E.
  destruct (falsy (registry_get sc)); [discriminate E |].
  destruct (js_Array (registry_get sc)); [discriminate E |].
  injection E as ->. reflexivity.
Qed.

(** The display list and hearts of a constructed actor. *)
Lemma new_Player_hearts sc x y now p :
  new_Player sc x y now = Ok p ->
  exists h,
    getHp p = Some (Num h) /\ 0 < h < 2 ^ 32 /\
    hearts p = seq (length (sprites sc) + 3) (Z.to_nat h) /\
    sprites (scene p)
      = sprites sc
          ++ map (heart_sprite "heart-empty" 50) [0; 1; 2]%nat
          ++ map (heart_sprite "heart" 100) (seq 0 (Z.to_nat h)) /\
    orientation p = Orientation.down /\
    lastTimeHit p = now /\
    isLoading p = false /\ isShooting p = false.
Proof.
  intros Hok.
  destruct (new_Player_Ok_hp _ _ _ _ _ Hok) as (h & Hh & Hpos & _).
  pose proof (getHp_new_Player _ _ _ _ _ Hok) as Hg.
  pose proof (new_Player_unfold sc x y now) as E. cbn zeta in E.
  rewrite <- Hg, Hh in E. rewrite Hok in E. cbn in E.
  destruct (0 <=? h) eqn:H0; [| discriminate E].
  destruct (h <? 2 ^ 32) eqn:H1; [| discriminate E]. cbn in E.
  apply Z.ltb_lt in H1.
  injection E as ->. exists h. cbn. rewrite length_seq.
  repeat split; try assumption; try reflexivity.
Qed.

Lemma new_Player_heart_row sc x y now p :
  new_Player sc x y now = Ok p ->
  forall i r,
    hearts p !! i = Some r ->
    sprites (scene p) !! r = Some (heart_sprite "heart" 100 i).
Proof.
  intros Hok i r Hi.
  destruct (new_Player_hearts _ _ _ _ _ Hok) as (h & _ & _ & Hhs & Hsp & _).
  rewrite Hhs in Hi. apply lookup_seq in Hi as (-> & Hlt).
  rewrite Hsp, lookup_app_r by lia.
  replace (length (sprites sc) + 3 + i - length (sprites sc))%nat
    with (3 + i)%nat by lia.
  change (map (heart_sprite "heart" 100) (seq 0 (Z.to_nat h)) !! i
          = Some (heart_sprite "heart" 100 i)).
  rewrite list_lookup_fmap, lookup_seq_lt by exact Hlt. reflexivity.
Qed.

(** X9: an actor the constructor returns starts with as many filled hearts
    as the registry holds hit points (a positive number), heart [i] being a
    visible "heart" sprite at ((i + 1) * 15, 15); it faces down with both
    locks clear, no tomb and an active game object at rest, and it cannot be
    hit until more than 500 time units after its construction. *)
Theorem new_Player_initial_state sc x y now p :
  new_Player sc x y now = Ok p ->
  exists h,
    getHp p = Some (Num h) /\ 0 < h /\
    Z.of_nat (length (hearts p)) = h /\
    (forall i r,
       hearts p !! i = Some r ->
       sprites (scene p) !! r
         = Some (mkSprite ((Z.of_nat i + 1) * 15) 15 "heart" 0 100
                   (Qmake 1 1) 1)) /\
    orientation p = Orientation.down /\
    isLoading p = false /\ isShooting p = false /\ tomb p = None /\
    active (gameObject p) = true /\
    velocityX (gameObject p) = 0 /\ velocityY (gameObject p) = 0 /\
    (forall t, canGetHit t p = true <-> t - now > 500).
Proof.
  intros Hok.
  destruct (new_Player_hearts _ _ _ _ _ Hok)
    as (h & Hh & Hr & Hhs & Hsp & Ho & Ht & Hl & Hs).
  destruct (new_Player_Ok _ _ _ _ _ Hok) as (Hg & Htomb & _).
  exists h. split; [exact Hh |]. split; [lia |].
  split; [rewrite Hhs, length_seq; lia |].
  split.
  { intros i r Hi. apply (new_Player_heart_row _ _ _ _ _ Hok i r Hi). }
  rewrite Hg. repeat split; try assumption; try reflexivity.
  - unfold canGetHit, HIT_DELAY. rewrite Ht. apply Z.gtb_gt.
  - unfold canGetHit, HIT_DELAY. rewrite Ht. apply Z.gtb_gt.
Qed.

(** ** Invariants of the reachable states *)

(** One [loseHp] on the heart row: a heart that showed [h] shows [h - 1]. *)
Lemma refreshed_heart h h' hs l i r s :
  h' <= h ->
  NoDup hs ->
  hs !! i = Some r ->
  l !! r = Some s ->
  alpha s = (if h <=? Z.of_nat i then 0 else 1) ->
  exists s',
    updateHearts_from (Some (Num h')) 0 hs l !! r = Some s' /\
    texture s' = texture s /\
    alpha s' = (if h' <=? Z.of_nat i then 0 else 1).
Proof.
  intros Hle Hnd Hi Hr Ha.
  rewrite (refreshed_lookup h' hs l i r s Hnd Hi Hr).
  destruct (Z.leb_spec h' (Z.of_nat i)) as [Hhid | Hvis].
  - exists (setAlpha 0 s). auto.
  - exists s. split; [reflexivity |]. split; [reflexivity |].
    rewrite Ha. destruct (Z.leb_spec h (Z.of_nat i)); [lia | reflexivity].
Qed.

(** What one hit leaves of the hit points of a reachable actor. *)
Lemma reachable_hit guarded q h :
  reachable guarded q ->
  getHp q = Some (Num h) ->
  exists h',
    js_add (Some (Num h)) (-1) = Num h' /\
    h' <= h /\ (0 < h' <-> 1 < h).
Proof.
  intros Hq Hh.
  destruct (reachable_inv guarded q Hq) as (h0 & Hh0 & Hrange & _).
  rewrite Hh in Hh0. injection Hh0 as <-.
  exists (if h =? - 2 ^ 53 then h else h - 1).
  split; [apply js_add_minus_one; lia |].
  destruct (Z.eqb_spec h (- 2 ^ 53)); lia.
Qed.

Lemma reachable_hearts_inv guarded p :
  reachable guarded p ->
  exists h,
    getHp p = Some (Num h) /\
    h <= Z.of_nat (length (hearts p)) /\
    forall i r,
      hearts p !! i = Some r ->
      exists s,
        sprites (scene p) !! r = Some s /\
        texture s = "heart" /\
        alpha s = (if h <=? Z.of_nat i then 0 else 1).
Proof.
  assert (Hnew : forall sc x y now q,
    new_Player sc x y now = Ok q ->
    exists h,
      getHp q = Some (Num h) /\
      h <= Z.of_nat (length (hearts q)) /\
      forall i r,
        hearts q !! i = Some r ->
        exists s,
          sprites (scene q) !! r = Some s /\
          texture s = "heart" /\
          alpha s = (if h <=? Z.of_nat i then 0 else 1)).
  { intros sc x y now q Hok.
    destruct (new_Player_hearts _ _ _ _ _ Hok) as (h & Hh & Hrange & Hhs & _).
    assert (Hlen : Z.of_nat (length (hearts q)) = h)
      by (rewrite Hhs, length_seq; lia).
    exists h. split; [exact Hh |]. split; [lia |].
    intros i r Hi. eexists.
    split; [apply (new_Player_heart_row _ _ _ _ _ Hok i r Hi) |].
    split; [reflexivity |]. cbn.
    apply lookup_lt_Some in Hi.
    destruct (Z.leb_spec h (Z.of_nat i)); [lia | reflexivity]. }
  intros Hreach.
  induction Hreach as [sc x y now p Hnone Hok
                      | q x y now p Hq IH Hok
                      | q k Hq IH
                      | q cb Hq IH
                      | q now Hq IH Hguard].
  - eapply Hnew, Hok.
  - eapply Hnew, Hok.
  - destruct IH as (h & Hh & Hlen & Hrow).
    pose proof (update_frame k q) as (Er & Es & Eh & _).
    exists h. unfold getHp, registry_get in *. rewrite Er, Es, Eh. auto.
  - destruct IH as (h & Hh & Hlen & Hrow).
    pose proof (fire_frame cb q) as (Es & Eh & _).
    exists h. unfold getHp in *. rewrite Es, Eh. auto.
  - destruct IH as (h & Hh & Hlen & Hrow).
    destruct (reachable_hearts_wf guarded q Hq) as (Hnd & _).
    destruct (reachable_hit guarded q h Hq Hh) as (h' & Hadd & Hle & _).
    pose proof (loseHp_unfold_as now q h h' Hh Hadd) as E. cbn zeta in E.
    exists h'.
    assert (Hhearts : hearts (loseHp now q) = hearts q)
      by apply loseHp_frame.
    split; [| split; [rewrite Hhearts; lia |]].
    + rewrite E. unfold getHp, registry_get.
      destruct (0 <? h'); [| destruct (tomb q)]; cbn;
        apply lookup_insert_eq.
    + rewrite Hhearts. intros i r Hi.
      destruct (Hrow i r Hi) as (s & Hs & Htex & Ha).
      destruct (refreshed_heart h h' (hearts q) (sprites (scene q)) i r s
                  Hle Hnd Hi Hs Ha) as (s' & Hs' & Htex' & Ha').
      exists s'. split; [| split; [congruence | exact Ha']].
      rewrite E. destruct (0 <? h'); [exact Hs' |].
      destruct (tomb q); cbn; [exact Hs' |].
      rewrite lookup_app_l; [exact Hs' |]. eapply lookup_lt_Some, Hs'.
Qed.

(** X10: in every reachable state the heart row mirrors the stored hit
    points [h]: there are at least [h] filled hearts, each is a "heart"
    sprite of the display list, and heart [i] is visible (alpha 1) when
    [i < h] and hidden (alpha 0) when [i >= h]. *)
Theorem hearts_mirror_hp guarded p :
  reachable guarded p ->
  exists h,
    getHp p = Some (Num h) /\
    h <= Z.of_nat (length (hearts p)) /\
    forall i r,
      hearts p !! i = Some r ->
      exists s,
        sprites (scene p) !! r = Some s /\
        texture s = "heart" /\
        alpha s = (if h <=? Z.of_nat i then 0 else 1).
Proof. apply reachable_hearts_inv. Qed.

Lemma update_position k p :
  goX (gameObject (update k p)) = goX (gameObject p) /\
  goY (gameObject (update k p)) = goY (gameObject p).
Proof.
  destruct (active (gameObject p)) eqn:Hact.
  - rewrite update_active by assumption.
    pose proof (before_shoot_same k p) as (_ & Hl & _ & _ & _ & _ & Hx & Hy & _).
    rewrite <- Hx, <- Hy. unfold handleShootKey.
    destruct (keyPressed.shift k) eqn:Hs; [| auto].
    destruct (isLoading (before_shoot k p)) eqn:Hlq; [auto |].
    pose proof (handleShootKey_fires k _ Hs Hlq) as E. cbn zeta in E.
    unfold handleShootKey in E. rewrite Hs, Hlq in E. rewrite E. auto.
  - rewrite update_inactive by assumption. auto.
Qed.

Lemma reachable_alive_inv guarded p :
  reachable guarded p ->
  exists h,
    getHp p = Some (Num h) /\
    (active (gameObject p) = true <-> 0 < h) /\
    (active (gameObject p) = true <-> tomb p = None) /\
    forall t,
      tomb p = Some t ->
      (t ∉ hearts p) /\
      sprites (scene p) !! t
        = Some (mkSprite (goX (gameObject p)) (goY (gameObject p)) "tomb"
                  1 0 (Qmake 1 10) 1).
Proof.
  intros Hreach.
  induction Hreach as [sc x y now p Hnone Hok
                      | q x y now p Hq IH Hok
                      | q k Hq IH
                      | q cb Hq IH
                      | q now Hq IH Hguard].
  1, 2:
    destruct (new_Player_Ok_hp _ _ _ _ _ Hok) as (h & Hh & Hpos & _);
    destruct (new_Player_Ok _ _ _ _ _ Hok) as (Hg & Htomb & _);
    exists h; rewrite Hg, Htomb; cbn;
    (split; [exact Hh |]); (split; [tauto |]); (split; [tauto |]);
    intros t Ht; discriminate Ht.
  - destruct IH as (h & Hh & Ha & Hn & Ht).
    pose proof (update_frame k q) as (Er & Es & Eh & Et & _ & Eact).
    pose proof (update_position k q) as (Ex & Ey).
    exists h. unfold getHp, registry_get in *.
    rewrite Er, Es, Eh, Et, Eact, Ex, Ey. auto.
  - destruct IH as (h & Hh & Ha & Hn & Ht).
    pose proof (fire_frame cb q) as (Es & Eh & Et & Eg).
    exists h. unfold getHp in *. rewrite Es, Eh, Et, Eg. auto.
  - destruct IH as (h & Hh & Ha & Hn & Ht).
    destruct (reachable_hearts_wf guarded q Hq) as (_ & Hvalid).
    destruct (reachable_hit guarded q h Hq Hh) as (h' & Hadd & Hle & Hpos').
    pose proof (loseHp_unfold_as now q h h' Hh Hadd) as E. cbn zeta in E.
    exists h'. rewrite E.
    destruct (Z.ltb_spec 0 h') as [Hpos | Hdead].
    + assert (Hact : active (gameObject q) = true) by (apply Ha; lia).
      assert (Hnone : tomb q = None) by (apply Hn, Hact).
      cbn. unfold getHp, registry_get. cbn.
      split; [apply lookup_insert_eq |].
      split; [tauto |]. split; [tauto |].
      intros t Ht'. congruence.
    + destruct (tomb q) as [t0 |] eqn:Htq; cbn; unfold getHp, registry_get; cbn;
        (split; [apply lookup_insert_eq |]);
        (split; [split; [discriminate | lia] |]);
        (split; [split; discriminate |]);
        intros t Ht'; injection Ht' as <-.
      * destruct (Ht t0 eq_refl) as (Hnot & Hsp). split; [exact Hnot |].
        rewrite updateHearts_from_kept; [exact Hsp |].
        intros j Hj. exfalso. apply Hnot.
        apply list_elem_of_lookup. eauto.
      * split.
        -- intros Hin. destruct (Hvalid _ Hin) as (s & Hs).
           apply lookup_lt_Some in Hs. lia.
        -- rewrite lookup_app_r
             by (rewrite length_updateHearts_from; lia).
           rewrite length_updateHearts_from, Nat.sub_diag. reflexivity.
Qed.

(** X11: in every reachable state the game object is active exactly when
    the stored hit points are positive and exactly when the actor has no
    tomb.  A tomb, once there, is not one of the hearts and is still in the
    display list as the "tomb" sprite at the game object's position, scale
    0.1, visible: refreshing the hearts never hides it. *)
Theorem alive_iff_no_tomb guarded p :
  reachable guarded p ->
  exists h,
    getHp p = Some (Num h) /\
    (active (gameObject p) = true <-> 0 < h) /\
    (active (gameObject p) = true <-> tomb p = None) /\
    forall t,
      tomb p = Some t ->
      (t ∉ hearts p) /\
      sprites (scene p) !! t
        = Some (mkSprite (goX (gameObject p)) (goY (gameObject p)) "tomb"
                  1 0 (Qmake 1 10) 1).
Proof. apply reachable_alive_inv. Qed.

(** ** Damage: edge cases and frames *)

Lemma getHp_loseHp t q z :
  getHp q = Some (Num z) -> - 2 ^ 53 < z <= 2 ^ 53 ->
  getHp (loseHp t q) = Some (Num (z - 1)).
Proof.
  intros Hz Hr. pose proof (loseHp_unfold t q z Hz Hr) as E.
  cbn zeta in E. rewrite E. unfold getHp, registry_get.
  destruct (0 <? z - 1); [| destruct (tomb q)]; cbn; apply lookup_insert_eq.
Qed.

Lemma updateHearts_from_no_number hp i hs l :
  hp = None \/ hp = Some NaN ->
  updateHearts_from hp i hs l = l.
Proof.
  intros Hno. revert i l. induction hs as [| heart rest IH]; intros i l; cbn.
  - reflexivity.
  - rewrite IH. destruct Hno as [-> | ->]; reflexivity.
Qed.

(** X12: when the registry holds no hit-point number (no entry, or NaN),
    [loseHp] stores NaN, hides no heart, and kills the actor at once: the
    game object is destroyed and, if there was no tomb, one is added. *)
Theorem loseHp_without_number now p :
  registry (scene p) !! PLAYER_HP = None \/
  registry (scene p) !! PLAYER_HP = Some NaN ->
  let p' := loseHp now p in
  getHp p' = Some NaN /\
  active (gameObject p') = false /\
  tomb p' <> None /\
  sprites (scene p')
    = sprites (scene p)
        ++ match tomb p with
           | None => [mkSprite (goX (gameObject p)) (goY (gameObject p))
                        "tomb" 1 0 (Qmake 1 10) 1]
           | Some _ => []
           end.
Proof.
  intros Hreg. cbn zeta.
  assert (Hadd : js_add (registry (scene p) !! PLAYER_HP) (-1) = NaN).
  { destruct Hreg as [-> | ->]; reflexivity. }
  destruct p as [sc g o t l s tb hs]. cbn in Hreg, Hadd.
  unfold loseHp, updateHearts, getHp, addHp, setHp, registry_set, registry_get.
  cbn. rewrite !lookup_insert_eq, !Hadd. cbn.
  rewrite updateHearts_from_no_number by (right; reflexivity).
  destruct tb; cbn; rewrite ?app_nil_r;
    (split; [apply lookup_insert_eq |]); repeat split; discriminate.
Qed.

(** X13: [loseHp] does not look at the invulnerability window: right after
    a hit at time [now], [canGetHit] is false up to [now + 500], and a
    second [loseHp] at any time still takes a second hit point.  The stored
    value is an integer [h] within the range where numbers are exact. *)
Theorem loseHp_ignores_window now now' p h :
  getHp p = Some (Num h) ->
  - 2 ^ 53 + 1 < h <= 2 ^ 53 ->
  (now' - now <= 500 -> canGetHit now' (loseHp now p) = false) /\
  getHp (loseHp now' (loseHp now p)) = Some (Num (h - 2)).
Proof.
  intros Hh Hrange.
  split.
  - intros Hw. unfold canGetHit, HIT_DELAY.
    destruct (loseHp_frame now p) as (_ & -> & _).
    destruct (Z.gtb_spec (now' - now) 500); [lia | reflexivity].
  - rewrite (getHp_loseHp now' _ (h - 1));
      [do 2 f_equal; lia | apply getHp_loseHp; [exact Hh | lia] | lia].
Qed.

(** X14: a frame never touches the health side of the actor: the registry,
    the display list, the hearts, the tomb, the time of the last hit (hence
    [canGetHit]), the position and whether the game object is active are the
    same after [update], whatever keys are held. *)
Theorem update_keeps_health k p :
  let p' := update k p in
  registry (scene p') = registry (scene p) /\
  sprites (scene p') = sprites (scene p) /\
  hearts p' = hearts p /\
  tomb p' = tomb p /\
  lastTimeHit p' = lastTimeHit p /\
  (forall t, canGetHit t p' = canGetHit t p) /\
  goX (gameObject p') = goX (gameObject p) /\
  goY (gameObject p') = goY (gameObject p) /\
  active (gameObject p') = active (gameObject p).
Proof.
  cbn zeta.
  pose proof (update_frame k p) as (Er & Es & Eh & Et & El & Ea).
  pose proof (update_position k p) as (Ex & Ey).
  unfold canGetHit. rewrite El. repeat split; assumption.
Qed.

(** X15: [loseHp] never touches the combat side of the actor, nor its
    facing and place: orientation, both locks, mirroring and position, and
    the scene's timer events, arrows, treants, colliders and physics sprites
    are the same after it; in the registry only the hit-point entry can
    differ.  When the game object is still active after the call, the whole
    game object is as before, velocity and current animation included; when
    the call was lethal the game object was destroyed, and its body and its
    animation are gone. *)
Theorem loseHp_keeps_motion now p :
  let p' := loseHp now p in
  orientation p' = orientation p /\
  isLoading p' = isLoading p /\
  isShooting p' = isShooting p /\
  flipX (gameObject p') = flipX (gameObject p) /\
  goX (gameObject p') = goX (gameObject p) /\
  goY (gameObject p') = goY (gameObject p) /\
  timeEvents (scene p') = timeEvents (scene p) /\
  arrows (scene p') = arrows (scene p) /\
  treants (scene p') = treants (scene p) /\
  colliders (scene p') = colliders (scene p) /\
  physicsSprites (scene p') = physicsSprites (scene p) /\
  (forall key, key <> PLAYER_HP ->
     registry (scene p') !! key = registry (scene p) !! key) /\
  (active (gameObject p') = true -> gameObject p' = gameObject p) /\
  (js_gt (getHp p') 0 = false ->
   active (gameObject p') = false /\
   hasBody (gameObject p') = false /\
   currentAnim (gameObject p') = None).
Proof.
  cbn zeta. destruct p as [sc g o t l s tb hs]. unfold loseHp. cbn zeta.
  match goal with
  | |- context [if ?c then _ else _] => destruct c eqn:Hgt
  end.
  - do 11 (split; [reflexivity |]).
    split; [intros key Hne; apply lookup_insert_ne; congruence |].
    split; [reflexivity |].
    intros Hdead. exfalso.
    change (js_gt (getHp (with_lastTimeHit now
              (updateHearts (addHp (-1) (mkPlayer sc g o t l s tb hs))))) 0
            = false) in Hdead.
    congruence.
  - destruct tb; cbn;
      (do 11 (split; [reflexivity |]));
      (split; [intros key Hne; apply lookup_insert_ne; congruence |]);
      (split; [discriminate |]); intros _; repeat split.
Qed.

(** X16: only the hit-point entry of the registry is ever written: any other
    key reads the same after [update], [loseHp], a timer callback, and after
    the construction of an actor on the scene, returned or thrown. *)
Theorem registry_other_keys key :
  key <> PLAYER_HP ->
  (forall o p, registry (scene (run o p)) !! key = registry (scene p) !! key) /\
  (forall sc x y now,
     registry (result_scene (new_Player sc x y now)) !! key
     = registry sc !! key).
Proof.
  intros Hne. split.
  - intros [k | now | cb] p; cbn.
    + pose proof (update_frame k p) as (Er & _). rewrite Er. reflexivity.
    + destruct p as [sc g o t l s tb hs]. unfold loseHp. cbn zeta.
      match goal with
      | |- context [if ?c then _ else _] => destruct c
      end; [| destruct tb]; cbn; apply lookup_insert_ne; congruence.
    + pose proof (fire_frame cb p) as (Es & _). rewrite Es. reflexivity.
  - intros sc x y now. rewrite new_Player_registry.
    destruct (falsy (registry_get sc)); [| reflexivity].
    apply lookup_insert_ne. congruence.
Qed.

(** ** Scenarios across operations *)

Lemma loseHp_alive_length t q z :
  getHp q = Some (Num z) -> 1 < z <= 2 ^ 53 ->
  length (sprites (scene (loseHp t q))) = length (sprites (scene q)).
Proof.
  intros Hz Hgt. pose proof (loseHp_unfold t q z Hz) as E.
  cbn zeta in E. rewrite E by lia.
  destruct (Z.ltb_spec 0 (z - 1)); [| lia].
  cbn. apply length_updateHearts_from.
Qed.

(** X17: damage persists across respawns, death does not.  On the scene of
    a reachable actor that was only hit while alive, constructing a new
    actor always returns; the new actor finds the hit points [h] of the old
    one when they are positive and the full 3 when the old one had died,
    with that many filled hearts. *)
Theorem respawn_on_scene q x y now :
  reachable true q ->
  exists h p,
    getHp q = Some (Num h) /\
    new_Player (scene q) x y now = Ok p /\
    getHp p = Some (Num (if 0 <? h then h else 3)) /\
    Z.of_nat (length (hearts p)) = (if 0 <? h then h else 3).
Proof.
  intros Hq.
  destruct (reachable_inv true q Hq) as (h & Hh & Hle & Hg).
  destruct (Hg eq_refl) as (H0 & _).
  pose proof (new_Player_unfold (scene q) x y now) as E. cbn zeta in E.
  unfold getHp in Hh. rewrite Hh in E. cbn in E.
  assert (Harr : exists ixs,
    js_Array (if h =? 0 then Some (Num MAX_HP) else Some (Num h)) = Some ixs).
  { destruct (Z.eqb_spec h 0) as [-> | Hne]; [eexists; reflexivity |].
    cbn. destruct (Z.leb_spec 0 h); [| lia].
    destruct (Z.ltb_spec h (2 ^ 32)); [| lia]. eexists. reflexivity. }
  destruct Harr as (ixs & Harr). rewrite Harr in E.
  exists h. eexists. split; [exact Hh |]. split; [exact E |].
  pose proof (new_Player_hearts _ _ _ _ _ E) as (h' & Hh' & Hr' & Hhs' & _).
  pose proof (getHp_new_Player _ _ _ _ _ E) as Hg'.
  rewrite Hh in Hg'. cbn in Hg'.
  assert (h' = if 0 <? h then h else 3) as <-.
  { rewrite Hh' in Hg'. unfold MAX_HP in Hg'.
    destruct (Z.eqb_spec h 0) as [-> | Hne]; injection Hg' as ->.
    - reflexivity.
    - destruct (Z.ltb_spec 0 h); [reflexivity | lia]. }
  split; [exact Hh' |]. rewrite Hhs', length_seq. lia.
Qed.

(** X18: an actor built on a scene without a hit-point entry survives
    exactly two hits: after two calls of [loseHp] it has 1 hit point and an
    active game object; the third call leaves 0 hit points, destroys the
    game object, puts the tomb at the end of the display list and leaves all
    three hearts hidden.  The times of the hits play no part. *)
Theorem third_hit_kills sc x y now p t1 t2 t3 :
  registry sc !! PLAYER_HP = None ->
  new_Player sc x y now = Ok p ->
  let q2 := loseHp t2 (loseHp t1 p) in
  let q3 := loseHp t3 q2 in
  (getHp q2 = Some (Num 1) /\ active (gameObject q2) = true /\
   tomb q2 = None) /\
  getHp q3 = Some (Num 0) /\
  active (gameObject q3) = false /\
  tomb q3 = Some (length (sprites (scene p))) /\
  length (hearts q3) = 3%nat /\
  forall r, r ∈ hearts q3 ->
    exists s, sprites (scene q3) !! r = Some s /\ alpha s = 0.
Proof.
  intros Hnone Hok q2 q3.
  assert (Hp : reachable false p) by (eapply reach_new; eassumption).
  assert (H3 : getHp p = Some (Num 3)).
  { rewrite (getHp_new_Player _ _ _ _ _ Hok). unfold registry_get.
    rewrite Hnone. reflexivity. }
  assert (Hq2 : reachable false q2).
  { subst q2. do 2 (apply reach_loseHp; [| discriminate]). exact Hp. }
  assert (Hq3 : reachable false q3).
  { subst q3. apply reach_loseHp; [exact Hq2 | discriminate]. }
  assert (Hh2 : getHp q2 = Some (Num 1)).
  { subst q2. rewrite (getHp_loseHp t2 _ 2); [reflexivity | | lia].
    rewrite (getHp_loseHp t1 _ 3 H3); [reflexivity | lia]. }
  assert (Hh3 : getHp q3 = Some (Num 0)).
  { subst q3. rewrite (getHp_loseHp t3 _ 1 Hh2); [reflexivity | lia]. }
  destruct (reachable_alive_inv false q2 Hq2) as (h2 & Eh2 & Ha2 & Hn2 & _).
  rewrite Hh2 in Eh2. injection Eh2 as <-.
  assert (Hact2 : active (gameObject q2) = true) by (apply Ha2; lia).
  assert (Htomb2 : tomb q2 = None) by (apply Hn2, Hact2).
  split; [auto |]. split; [exact Hh3 |].
  pose proof (loseHp_unfold t3 q2 1 Hh2 ltac:(lia)) as E. cbn zeta in E.
  rewrite Htomb2 in E. cbn in E. fold q3 in E.
  assert (Hlen : length (sprites (scene q2)) = length (sprites (scene p))).
  { subst q2.
    rewrite (loseHp_alive_length t2 _ 2), (loseHp_alive_length t1 _ 3);
      first [reflexivity | lia | exact H3
            | apply (getHp_loseHp t1 p 3 H3); lia]. }
  assert (Hhearts : hearts q3 = hearts p).
  { subst q3 q2.
    destruct (loseHp_frame t3 (loseHp t2 (loseHp t1 p))) as (-> & _).
    destruct (loseHp_frame t2 (loseHp t1 p)) as (-> & _).
    apply loseHp_frame. }
  split; [rewrite E; reflexivity |].
  split; [rewrite E; cbn; rewrite Hlen; reflexivity |].
  split.
  - rewrite Hhearts.
    destruct (new_Player_hearts _ _ _ _ _ Hok) as (h & Hh & _ & Hhs & _).
    rewrite H3 in Hh. injection Hh as <-. rewrite Hhs, length_seq.
    reflexivity.
  - intros r Hr. apply list_elem_of_lookup in Hr as (i & Hi).
    destruct (reachable_hearts_inv false q3 Hq3) as (h & Eh & _ & Hrow).
    rewrite Hh3 in Eh. injection Eh as <-.
    destruct (Hrow i r Hi) as (s & Hs & _ & Ha).
    exists s. split; [exact Hs |]. rewrite Ha.
    destruct (Z.leb_spec 0 (Z.of_nat i)); [reflexivity | lia].
Qed.

End PlayerClass.

(** ** The statements at sample states *)

Lemma ex_player_constructed :
  new_Player "playerHp" ex_scene 40 60 1000 = Ok (ex_player "playerHp").
Proof. vm_compute. reflexivity. Qed.

Lemma ex_player_reachable guarded :
  reachable "playerHp" guarded (ex_player "playerHp").
Proof.
  eapply reach_new; [| exact ex_player_constructed]. reflexivity.
Qed.

Lemma ex_hurt_reachable guarded :
  reachable "playerHp" guarded (ex_hurt "playerHp").
Proof.
  unfold ex_hurt.
  apply reach_loseHp; [apply reach_loseHp |];
    [apply ex_player_reachable | intros _; reflexivity ..].
Qed.

(** C10 at the dead sample actor with the ranged key held. *)
Lemma update_inactive_noop_witness :
  active (gameObject (ex_dead "playerHp")) = false /\
  update ex_shift (ex_dead "playerHp") = ex_dead "playerHp".
Proof.
  split; [reflexivity | apply update_inactive_noop; reflexivity].
Defined.

(** C8 at the sample actor walking left: the frame stops it and puts it
    on the side idle animation, still mirrored. *)
Lemma update_no_key_idle_witness :
  let p := ex_walking_left "playerHp" in
  let p' := update ex_no_key p in
  (active (gameObject p) = true /\
   noKeyPressed ex_no_key = true /\
   isLoading p = false) /\
  (velocityX (gameObject p) = -100 /\
   currentAnim (gameObject p) = Some "player-move-left") /\
  velocityX (gameObject p') = 0 /\
  velocityY (gameObject p') = 0 /\
  orientation p' = Orientation.left /\
  currentAnim (gameObject p') = Some "player-idle-side" /\
  flipX (gameObject p') = true.
Proof.
  cbn zeta. split; [repeat split |]. split; [split; reflexivity |].
  destruct (update_no_key_idle ex_no_key (ex_walking_left "playerHp")
              eq_refl eq_refl) as (Hx & Hy & Hidle).
  destruct (Hidle eq_refl) as (Ho & Ha & Hf).
  split; [exact Hx |]. split; [exact Hy |]. split; [exact Ho |].
  split; [exact Ha |]. apply Hf. reflexivity.
Defined.

(** C2 at the sample actor one frame after it fired. *)
Lemma shoot_while_reloading_noop_witness :
  let p := update ex_shift (ex_player "playerHp") in
  keyPressed.shift ex_shift = true /\
  isLoading p = true /\
  handleShootKey ex_shift p = p /\
  (active (gameObject p) = true -> update ex_shift p = before_shoot ex_shift p) /\
  arrows (scene (update ex_shift p)) = arrows (scene p) /\
  timeEvents (scene (update ex_shift p)) = timeEvents (scene p) /\
  colliders (scene (update ex_shift p)) = colliders (scene p) /\
  isLoading (update ex_shift p) = true /\
  isShooting (update ex_shift p) = isShooting p.
Proof.
  cbn zeta. split; [reflexivity |]. split; [reflexivity |].
  apply shoot_while_reloading_noop; reflexivity.
Defined.

(** C1 as stated fails on a destroyed actor: the ranged key is held and the
    reload lock is clear, yet the frame sets no lock, schedules nothing and
    creates no arrow. *)
Lemma shoot_claim_counterexample :
  let p := ex_dead "playerHp" in
  let p' := update ex_shift p in
  keyPressed.shift ex_shift = true /\
  isLoading p = false /\
  isLoading p' <> true /\
  isShooting p' <> true /\
  timeEvents (scene p') = timeEvents (scene p) /\
  arrows (scene p') = arrows (scene p).
Proof.
  cbn zeta. vm_compute. repeat split; discriminate.
Qed.

(** C1 (amended) at the freshly built sample actor. *)
Lemma shoot_on_live_actor_witness :
  let p := ex_player "playerHp" in
  let p' := update ex_shift p in
  (active (gameObject p) = true /\
   keyPressed.shift ex_shift = true /\
   isLoading p = false) /\
  isLoading p' = true /\
  isShooting p' = true /\
  timeEvents (scene p')
    = [mkTimerEvent 500 cb_readyToFire; mkTimerEvent 300 cb_endShoot] /\
  currentAnim (gameObject p') = Some "player-attack-weapon-down" /\
  arrows (scene p') = [mkArrow Orientation.down 40 60] /\
  colliders (scene p')
    = [mkCollider 0 (mkTreant 7) (mkTreant 7, 0%nat);
       mkCollider 0 (mkTreant 9) (mkTreant 9, 0%nat)].
Proof.
  cbn zeta.
  pose proof (shoot_on_live_actor ex_shift (ex_player "playerHp")
                eq_refl eq_refl eq_refl)
    as (H1 & H2 & H3 & H4 & H5 & H6 & _).
  split; [repeat split |].
  split; [exact H1 |]. split; [exact H2 |]. split; [exact H3 |].
  split; [exact H4 |]. split; [exact H5 | exact H6].
Defined.

(** C5 as stated fails with left and up held: the frame ends facing up, not
    mirrored, on the vertical walk animation. *)
Lemma diagonal_claim_counterexample :
  let p := ex_player "playerHp" in
  let p' := update ex_left_up p in
  active (gameObject p) = true /\
  isShooting p = false /\
  keyPressed.up ex_left_up = true /\
  keyPressed.left ex_left_up = true /\
  velocityX (gameObject p') = -100 /\
  velocityY (gameObject p') = -100 /\
  orientation p' = Orientation.up /\
  orientation p' <> Orientation.left /\
  flipX (gameObject p') = false /\
  currentAnim (gameObject p') = Some "player-move-up".
Proof.
  cbn zeta. vm_compute. repeat split; discriminate.
Qed.

(** C5 (amended) at the same input. *)
Lemma diagonal_movement_faces_vertical_witness :
  let p := ex_player "playerHp" in
  let p' := update ex_left_up p in
  (active (gameObject p) = true /\
   isShooting p = false /\
   keyPressed.up ex_left_up || keyPressed.down ex_left_up = true /\
   keyPressed.left ex_left_up || keyPressed.right ex_left_up = true) /\
  velocityX (gameObject p') = -100 /\
  velocityY (gameObject p') = -100 /\
  orientation p' = Orientation.up /\
  flipX (gameObject p') = false /\
  currentAnim (gameObject p') = Some "player-move-up".
Proof.
  cbn zeta.
  pose proof (diagonal_movement_faces_vertical ex_left_up (ex_player "playerHp")
                eq_refl eq_refl eq_refl eq_refl)
    as (H1 & H2 & H3 & H4 & _ & H6).
  split; [repeat split |].
  split; [exact H1 |]. split; [exact H2 |]. split; [exact H3 |].
  split; [exact H4 |]. apply H6; [reflexivity | left; reflexivity].
Defined.

(** C3 at the sample actor with one hit point left: the hit hides its
    last visible heart and kills it. *)
Lemma loseHp_spec_witness :
  let p := ex_hurt "playerHp" in
  let p' := loseHp "playerHp" 2800 p in
  (getHp "playerHp" p = Some (Num 1) /\
   - 2 ^ 53 < 1 <= 2 ^ 53 /\
   NoDup (hearts p)) /\
  (hearts p !! 0%nat = Some 3%nat /\
   sprites (scene p) !! 3%nat
     = Some (mkSprite 15 15 "heart" 0 100 (Qmake 1 1) 1)) /\
  getHp "playerHp" p' = Some (Num 0) /\
  lastTimeHit p' = 2800 /\
  sprites (scene p') !! 3%nat
    = Some (mkSprite 15 15 "heart" 0 100 (Qmake 1 1) 0) /\
  active (gameObject p') = false /\
  tomb p' = Some 6%nat /\
  sprites (scene p') !! 6%nat
    = Some (mkSprite 40 60 "tomb" 1 0 (Qmake 1 10) 1) /\
  forall nows,
    tomb (loseHp_each "playerHp" nows p') = tomb p' /\
    length (sprites (scene (loseHp_each "playerHp" nows p')))
      = length (sprites (scene p')).
Proof.
  cbn zeta.
  assert (Hnd : NoDup (hearts (ex_hurt "playerHp"))).
  { change (NoDup (seq 3 3)). apply NoDup_seq. }
  assert (Hrange : - 2 ^ 53 < 1 <= 2 ^ 53) by (vm_compute; split; congruence).
  pose proof (loseHp_spec "playerHp" 2800 (ex_hurt "playerHp") 1
                eq_refl Hrange Hnd)
    as (H1 & H2 & _ & Hrow & _ & _ & Hdead).
  destruct (Hdead ltac:(lia)) as (H6 & (H7 & _ & H7') & H8).
  split; [auto |]. split; [split; reflexivity |].
  split; [exact H1 |]. split; [exact H2 |].
  split; [exact (Hrow 0%nat 3%nat _ eq_refl eq_refl) |].
  split; [exact H6 |]. split; [exact H7 |]. split; [exact H7' | exact H8].
Defined.

(** C4 as stated fails: a fourth [loseHp] after the three that kill the
    sample actor stores -1. *)
Lemma hp_bounds_claim_counterexample :
  let p := loseHp "playerHp" 3400 (ex_dead "playerHp") in
  reachable "playerHp" false p /\
  getHp "playerHp" p = Some (Num (-1)) /\
  ~ (0 <= -1 <= 3).
Proof.
  cbn zeta. split; [| split; [reflexivity | lia]].
  unfold ex_dead.
  apply reach_loseHp; [apply reach_loseHp |];
    [apply ex_hurt_reachable | discriminate ..].
Qed.

(** C4 (amended) at the sample actor after two guarded hits. *)
Lemma hp_bounds_witness :
  reachable "playerHp" true (ex_hurt "playerHp") /\
  exists h,
    getHp "playerHp" (ex_hurt "playerHp") = Some (Num h) /\
    h <= 3 /\ (true = true -> 0 <= h).
Proof.
  split; [apply ex_hurt_reachable |].
  apply (hp_bounds "playerHp" true), ex_hurt_reachable.
Defined.

(** C6 at the sample actor with one hit point left. *)
Lemma updateHearts_hides_from_hp_witness :
  let p := ex_hurt "playerHp" in
  let p' := updateHearts "playerHp" p in
  getHp "playerHp" p = Some (Num 1) /\
  NoDup (hearts p) /\
  hearts p' = [3; 4; 5]%nat /\
  alpha <$> sprites (scene p') !! 3%nat = Some 1 /\
  alpha <$> sprites (scene p') !! 4%nat = Some 0 /\
  alpha <$> sprites (scene p') !! 5%nat = Some 0.
Proof.
  cbn zeta.
  assert (Hnd : NoDup (hearts (ex_hurt "playerHp"))).
  { change (NoDup (seq 3 3)). apply NoDup_seq. }
  pose proof (updateHearts_hides_from_hp "playerHp" (ex_hurt "playerHp") 1
                eq_refl Hnd) as (H1 & _ & _).
  split; [reflexivity |]. split; [exact Hnd |]. split; [exact H1 |].
  repeat split.
Defined.

(** C7 as stated fails for a stored 0: construction replaces it by 3. *)
Lemma keeps_hp_claim_counterexample :
  let sc := set_registry (<["playerHp" := Num 0]> ∅) ex_scene in
  let sc' := result_scene (new_Player "playerHp" sc 40 60 1000) in
  registry sc !! "playerHp" = Some (Num 0) /\
  registry sc' !! "playerHp" = Some (Num 3) /\
  registry sc' !! "playerHp" <> registry sc !! "playerHp".
Proof.
  cbn zeta. vm_compute. repeat split. discriminate.
Qed.

(** C7 (amended) at a scene that holds 2 hit points. *)
Lemma new_Player_keeps_nonzero_hp_witness :
  let sc := set_registry (<["playerHp" := Num 2]> ∅) ex_scene in
  let sc' := result_scene (new_Player "playerHp" sc 40 60 1000) in
  registry sc !! "playerHp" = Some (Num 2) /\
  2 <> 0 /\
  registry sc' = registry sc /\
  registry sc' !! "playerHp" = Some (Num 2).
Proof.
  cbn zeta. split; [reflexivity |]. split; [lia |].
  apply (new_Player_keeps_nonzero_hp "playerHp"); [reflexivity | lia].
Defined.

(** ** The further properties at sample states *)

Lemma ex_dead_reachable guarded :
  reachable "playerHp" guarded (ex_dead "playerHp").
Proof.
  unfold ex_dead. apply reach_loseHp; [apply ex_hurt_reachable |].
  intros _. reflexivity.
Qed.

(** X1 at the sample actor one frame after it fired, left and up held. *)
Lemma movement_locked_frame_witness :
  let p := update ex_shift (ex_player "playerHp") in
  (active (gameObject p) = true /\ isShooting p = true) /\
  velocityX (gameObject (update ex_left_up p)) = 0 /\
  velocityY (gameObject (update ex_left_up p)) = 0 /\
  orientation (update ex_left_up p) = Orientation.down.
Proof.
  cbn zeta. split; [split; reflexivity |].
  apply (movement_locked_frame ex_left_up
           (update ex_shift (ex_player "playerHp"))); reflexivity.
Defined.

(** X2 at the sample actor with left and up held. *)
Lemma velocity_of_keys_witness :
  let p := ex_player "playerHp" in
  (active (gameObject p) = true /\ isShooting p = false) /\
  velocityX (gameObject (update ex_left_up p)) = -100 /\
  velocityY (gameObject (update ex_left_up p)) = -100.
Proof.
  cbn zeta. split; [split; reflexivity |].
  apply (velocity_of_keys ex_left_up (ex_player "playerHp")); reflexivity.
Defined.

(** X3 at the sample actor with left and up held. *)
Lemma facing_of_keys_witness :
  let p := ex_player "playerHp" in
  (active (gameObject p) = true /\ isShooting p = false) /\
  orientation (update ex_left_up p) = Orientation.up /\
  flipX (gameObject (update ex_left_up p)) = false.
Proof.
  cbn zeta. split; [split; reflexivity |].
  destruct (facing_of_keys ex_left_up (ex_player "playerHp") eq_refl eq_refl)
    as (Ho & Hf).
  split; [exact Ho |]. rewrite (Hf eq_refl), Ho. reflexivity.
Defined.

(** X4 at the sample actor with the ranged key held. *)
Lemma animation_priority_witness :
  let p := ex_player "playerHp" in
  active (gameObject p) = true /\
  currentAnim (gameObject (update ex_shift p))
    = Some "player-attack-weapon-down".
Proof.
  cbn zeta. split; [reflexivity |].
  rewrite (animation_priority ex_shift (ex_player "playerHp") eq_refl).
  reflexivity.
Defined.

(** X5 at the sample actor with left and up held. *)
Lemma frame_without_shift_witness :
  let p := ex_player "playerHp" in
  keyPressed.shift ex_left_up = false /\
  scene (update ex_left_up p) = scene p /\
  isLoading (update ex_left_up p) = isLoading p /\
  isShooting (update ex_left_up p) = isShooting p.
Proof.
  cbn zeta. split; [reflexivity |].
  apply (frame_without_shift ex_left_up (ex_player "playerHp")). reflexivity.
Defined.

(** X6 at the sample actor, the ranged key held in every frame. *)
Lemma reload_cycle_witness :
  let p := ex_player "playerHp" in
  let p1 := update ex_shift p in
  (active (gameObject p) = true /\ keyPressed.shift ex_shift = true /\
   isLoading p = false) /\
  length (arrows (scene (update ex_shift p1))) = 1%nat /\
  length (arrows (scene (update ex_shift (fire cb_endShoot p1)))) = 1%nat /\
  length (arrows (scene (update ex_shift (fire cb_readyToFire p1)))) = 2%nat.
Proof.
  cbn zeta. split; [repeat split |].
  pose proof (reload_cycle ex_shift ex_shift (ex_player "playerHp")
                eq_refl eq_refl eq_refl eq_refl)
    as (H1 & _ & (_ & _ & H2) & H3 & _).
  split; [exact H1 |]. split; [exact H2 | exact H3].
Defined.

(** X7 at a scene that holds 2.5 hit points, and at one that holds -1. *)
Lemma new_Player_throws_iff_witness :
  let sc := set_registry (<["playerHp" := Frac 2 1]> ∅) ex_scene in
  let sc1 := set_registry (<["playerHp" := Num (-1)]> ∅) ex_scene in
  (registry sc !! "playerHp" = Some (Frac 2 1) /\
   registry sc1 !! "playerHp" = Some (Num (-1))) /\
  (exists sc', new_Player "playerHp" sc 40 60 1000 = RangeError sc') /\
  (exists sc', new_Player "playerHp" sc1 40 60 1000 = RangeError sc').
Proof.
  cbn zeta. split; [split; reflexivity |]. split.
  - apply (new_Player_throws_iff "playerHp").
    exists (Frac 2 1). split; [reflexivity | exact I].
  - apply (new_Player_throws_iff "playerHp").
    exists (Num (-1)). split; [reflexivity | left; reflexivity].
Defined.

(** X8 at the scene that holds -1 hit points. *)
Lemma new_Player_thrown_scene_witness :
  let sc := set_registry (<["playerHp" := Num (-1)]> ∅) ex_scene in
  let sc' :=
    mkScene (registry sc)
      [mkSprite 15 15 "heart-empty" 0 50 (Qmake 1 1) 1;
       mkSprite 30 15 "heart-empty" 0 50 (Qmake 1 1) 1;
       mkSprite 45 15 "heart-empty" 0 50 (Qmake 1 1) 1]
      [] [] [mkTreant 7; mkTreant 9] []
      [mkPhysicsSprite 40 60 "player-idle-down" 0] in
  new_Player "playerHp" sc 40 60 1000 = RangeError sc'.
Proof.
  cbn zeta.
  assert (H : new_Player "playerHp"
                (set_registry (<["playerHp" := Num (-1)]> ∅) ex_scene)
                40 60 1000
              = RangeError
                  (result_scene
                     (new_Player "playerHp"
                        (set_registry (<["playerHp" := Num (-1)]> ∅) ex_scene)
                        40 60 1000)))
    by (vm_compute; reflexivity).
  pose proof (new_Player_thrown_scene "playerHp" _ _ _ _ _ H) as E.
  rewrite H, E. reflexivity.
Defined.

(** X9 at the sample actor. *)
Lemma new_Player_initial_state_witness :
  new_Player "playerHp" ex_scene 40 60 1000 = Ok (ex_player "playerHp") /\
  exists h,
    getHp "playerHp" (ex_player "playerHp") = Some (Num h) /\ 0 < h /\
    Z.of_nat (length (hearts (ex_player "playerHp"))) = h /\
    (forall t, canGetHit t (ex_player "playerHp") = true <-> t - 1000 > 500).
Proof.
  split; [exact ex_player_constructed |].
  destruct (new_Player_initial_state "playerHp" _ _ _ _ _ ex_player_constructed)
    as (h & H1 & H2 & H3 & _ & _ & _ & _ & _ & _ & _ & _ & H4).
  exists h. auto.
Defined.

(** X10 at the sample actor with one hit point left. *)
Lemma hearts_mirror_hp_witness :
  reachable "playerHp" true (ex_hurt "playerHp") /\
  exists h,
    getHp "playerHp" (ex_hurt "playerHp") = Some (Num h) /\
    h <= Z.of_nat (length (hearts (ex_hurt "playerHp"))) /\
    forall i r,
      hearts (ex_hurt "playerHp") !! i = Some r ->
      exists s,
        sprites (scene (ex_hurt "playerHp")) !! r = Some s /\
        texture s = "heart" /\
        alpha s = (if h <=? Z.of_nat i then 0 else 1).
Proof.
  split; [apply ex_hurt_reachable |].
  apply (hearts_mirror_hp "playerHp" true), ex_hurt_reachable.
Defined.

(** X11 at the dead sample actor. *)
Lemma alive_iff_no_tomb_witness :
  reachable "playerHp" true (ex_dead "playerHp") /\
  active (gameObject (ex_dead "playerHp")) = false /\
  tomb (ex_dead "playerHp") = Some 6%nat /\
  sprites (scene (ex_dead "playerHp")) !! 6%nat
    = Some (mkSprite 40 60 "tomb" 1 0 (Qmake 1 10) 1).
Proof.
  split; [apply ex_dead_reachable |].
  destruct (alive_iff_no_tomb "playerHp" true _ (ex_dead_reachable true))
    as (h & _ & _ & _ & Ht).
  split; [reflexivity |]. split; [reflexivity |].
  apply (Ht 6%nat eq_refl).
Defined.

(** X12 at the sample actor moved to a scene without a hit-point entry. *)
Lemma loseHp_without_number_witness :
  let p := with_scene ex_scene (ex_player "playerHp") in
  let p' := loseHp "playerHp" 1600 p in
  registry (scene p) !! "playerHp" = None /\
  getHp "playerHp" p' = Some NaN /\
  active (gameObject p') = false /\
  tomb p' <> None.
Proof.
  cbn zeta. split; [reflexivity |].
  destruct (loseHp_without_number "playerHp" 1600
              (with_scene ex_scene (ex_player "playerHp"))
              (or_introl eq_refl))
    as (H1 & H2 & H3 & _).
  auto.
Defined.

(** X13 at the sample actor, two hits at the same instant. *)
Lemma loseHp_ignores_window_witness :
  let p := ex_player "playerHp" in
  (getHp "playerHp" p = Some (Num 3) /\ - 2 ^ 53 + 1 < 3 <= 2 ^ 53) /\
  canGetHit 1600 (loseHp "playerHp" 1600 p) = false /\
  getHp "playerHp" (loseHp "playerHp" 1600 (loseHp "playerHp" 1600 p))
    = Some (Num 1).
Proof.
  cbn zeta.
  assert (Hrange : - 2 ^ 53 + 1 < 3 <= 2 ^ 53)
    by (vm_compute; split; congruence).
  split; [split; [reflexivity | exact Hrange] |].
  destruct (loseHp_ignores_window "playerHp" 1600 1600
              (ex_player "playerHp") 3 eq_refl Hrange) as (H1 & H2).
  split; [apply H1; lia | exact H2].
Defined.

(** X15 at the sample actor walking left: a hit it survives leaves its game
    object alone, the hit that kills it takes body and animation. *)
Lemma loseHp_keeps_motion_witness :
  let p := ex_walking_left "playerHp" in
  let p1 := loseHp "playerHp" 1600 p in
  let p3 := loseHp "playerHp" 2800 (loseHp "playerHp" 2200 p1) in
  "score" <> "playerHp" /\
  (velocityX (gameObject p) = -100 /\
   currentAnim (gameObject p) = Some "player-move-left") /\
  gameObject p1 = gameObject p /\
  registry (scene p1) !! "score" = registry (scene p) !! "score" /\
  orientation p3 = Orientation.left /\
  flipX (gameObject p3) = true /\
  active (gameObject p3) = false /\
  hasBody (gameObject p3) = false /\
  currentAnim (gameObject p3) = None.
Proof.
  cbn zeta. split; [discriminate |]. split; [split; reflexivity |].
  pose proof (loseHp_keeps_motion "playerHp" 1600
                (ex_walking_left "playerHp"))
    as (_ & _ & _ & _ & _ & _ & _ & _ & _ & _ & _ & Hkey & Hlive & _).
  split; [apply Hlive; reflexivity |].
  split; [apply Hkey; discriminate |].
  pose proof (loseHp_keeps_motion "playerHp" 2800
                (loseHp "playerHp" 2200
                   (loseHp "playerHp" 1600 (ex_walking_left "playerHp"))))
    as (Ho & _ & _ & Hf & _ & _ & _ & _ & _ & _ & _ & _ & _ & Hdead).
  split; [rewrite Ho; reflexivity |]. split; [rewrite Hf; reflexivity |].
  apply Hdead. reflexivity.
Defined.

(** X16 for another registry key. *)
Lemma registry_other_keys_witness :
  "score" <> "playerHp" /\
  registry (scene (loseHp "playerHp" 1600 (ex_player "playerHp"))) !! "score"
    = registry (scene (ex_player "playerHp")) !! "score" /\
  registry (result_scene (new_Player "playerHp" ex_scene 40 60 1000)) !! "score"
    = registry ex_scene !! "score".
Proof.
  assert (Hne : "score" <> "playerHp") by discriminate.
  split; [exact Hne |].
  destruct (registry_other_keys "playerHp" "score" Hne) as (H1 & H2).
  split; [apply (H1 (op_loseHp 1600)) | apply H2].
Defined.

(** X17 at the dead sample actor: the new actor has full health. *)
Lemma respawn_on_scene_witness :
  reachable "playerHp" true (ex_dead "playerHp") /\
  exists h p,
    getHp "playerHp" (ex_dead "playerHp") = Some (Num h) /\
    new_Player "playerHp" (scene (ex_dead "playerHp")) 10 20 5000 = Ok p /\
    getHp "playerHp" p = Some (Num (if 0 <? h then h else 3)) /\
    Z.of_nat (length (hearts p)) = (if 0 <? h then h else 3).
Proof.
  split; [apply ex_dead_reachable |].
  apply (respawn_on_scene "playerHp"), ex_dead_reachable.
Defined.

(** X18 at the sample scene. *)
Lemma third_hit_kills_witness :
  let p := ex_player "playerHp" in
  let q3 :=
    loseHp "playerHp" 2800 (loseHp "playerHp" 2200 (loseHp "playerHp" 1600 p)) in
  (registry ex_scene !! "playerHp" = None /\
   new_Player "playerHp" ex_scene 40 60 1000 = Ok p) /\
  getHp "playerHp" q3 = Some (Num 0) /\
  active (gameObject q3) = false /\
  tomb q3 = Some 6%nat.
Proof.
  cbn zeta. split; [split; [reflexivity | exact ex_player_constructed] |].
  pose proof (third_hit_kills "playerHp" ex_scene 40 60 1000
                (ex_player "playerHp") 1600 2200 2800
                eq_refl ex_player_constructed)
    as (_ & H1 & H2 & H3 & _).
  auto.
Defined.
